(** * RoachSlack: channel selection and execution policy of [main.go]

    A shallow embedding of the two sub-commands [joinSupport] and
    [leaveSupport], of the pagination loop [getAllChannels] and of
    [checkAuth], followed by the properties of the selection policy and of
    the execution driver.

    Go values are modelled as follows: [string] is a byte string
    ([String.string]), [map[string]string] is a [gmap string string], a
    slice is a [list], an [error] is [option error] ([None] is [nil]), and
    a function returning several values returns a tuple.  The Slack client
    and the clock are an abstract environment with a state of its own; every
    interaction is recorded in a trace. *)

From Stdlib Require Import ZArith.
From stdpp Require Import base list strings gmap sorting pretty.

Local Open Scope string_scope.
Local Open Scope list_scope.

(** ** Data model *)

(** The fields of [slack.Channel] that reach this program. *)
Record Channel := mkChannel {
  ID : string;
  Name : string;
  IsMember : bool;
  IsExtShared : bool;
  IsArchived : bool;
}.

(** [var defaultSupportChannels] (lines 15-20). *)
Definition defaultSupportChannels : list string :=
  ["customersupport"; "frame"; "monitoring"; "sentry"].

(** [strings.HasPrefix(s, prefix)]. *)
Definition HasPrefix (s prefix : string) : bool := String.prefix prefix s.

(** [sort.Strings]: sorts in increasing byte-wise lexicographic order.
    [String.le] is [String.leb], which compares character codes; the order
    is total and antisymmetric, so the sorted arrangement of a list is
    unique (see [sortStrings_unique]) and the choice of algorithm does not
    show in the result. *)
Definition sortStrings (l : list string) : list string :=
  merge_sort String.le l.

(** [channelIDs[name]]: indexing a Go map yields the zero value on a
    missing key. *)
Definition mapIndex (m : gmap string string) (k : string) : string :=
  default "" (m !! k).

(** ** Selection loops *)

(** The variables [supportChannelNames] and [channelIDs]. *)
Definition JoinAcc : Type := list string * gmap string string.

(** Lines 116-122, one iteration of the loop over the default names. The
    [continue] inside it continues this inner loop. *)
Definition joinDefaultStep (channel : Channel) (acc : JoinAcc)
    (defaultChannel : string) : JoinAcc :=
  if String.eqb defaultChannel (Name channel)
  then (acc.1 ++ [Name channel], <[Name channel := ID channel]> acc.2)
  else acc.

(** Lines 102-123, one iteration of the loop over the channels. *)
Definition joinStep (acc : JoinAcc) (channel : Channel) : JoinAcc :=
  if IsMember channel then acc
  else if HasPrefix (Name channel) "_"
  then (acc.1 ++ [Name channel], <[Name channel := ID channel]> acc.2)
  else fold_left (joinDefaultStep channel) defaultSupportChannels acc.

(** Lines 100-123. *)
Definition joinCollect (channels : list Channel) : JoinAcc :=
  fold_left joinStep channels ([], ∅).

(** The variables [supportChannelNames], [cannotLeave] and [channelIDs]. *)
Record LeaveAcc := mkLeaveAcc {
  la_names : list string;
  la_cannotLeave : list string;
  la_ids : gmap string string;
}.

(** Lines 193-210, one iteration. *)
Definition leaveStep (acc : LeaveAcc) (channel : Channel) : LeaveAcc :=
  if negb (IsMember channel) then acc
  else if HasPrefix (Name channel) "_"
  then
    if IsExtShared channel
    then mkLeaveAcc (la_names acc) (la_cannotLeave acc ++ [Name channel])
                    (la_ids acc)
    else mkLeaveAcc (la_names acc ++ [Name channel]) (la_cannotLeave acc)
                    (<[Name channel := ID channel]> (la_ids acc))
  else acc.

(** Lines 190-210. *)
Definition leaveCollect (channels : list Channel) : LeaveAcc :=
  fold_left leaveStep channels (mkLeaveAcc [] [] ∅).

(** ** The selection result

    The program has no selector function of its own: the selection is the
    value of the three variables once the loop and [sort.Strings] (lines 132
    and 219) have run.  When the names are empty the program returns before
    sorting, and sorting the empty slice gives the empty slice. *)
Inductive RunMode := Join | Leave.

Record SelectionResult := mkSelection {
  orderedNames : list string;
  idByName : gmap string string;
  unreachable : list string;
}.

Definition selector (mode : RunMode) (channels : list Channel)
    : SelectionResult :=
  match mode with
  | Join =>
      let acc := joinCollect channels in
      mkSelection (sortStrings acc.1) acc.2 []
  | Leave =>
      let acc := leaveCollect channels in
      mkSelection (sortStrings (la_names acc)) (la_ids acc)
                  (la_cannotLeave acc)
  end.

(** The channels each mode picks, as predicates. *)
Definition joinWanted (c : Channel) : bool :=
  negb (IsMember c)
  && (HasPrefix (Name c) "_" || bool_decide (Name c ∈ defaultSupportChannels)).

Definition leaveWanted (c : Channel) : bool :=
  IsMember c && HasPrefix (Name c) "_" && negb (IsExtShared c).

Definition leaveBlocked (c : Channel) : bool :=
  IsMember c && HasPrefix (Name c) "_" && IsExtShared c.

Definition wanted (mode : RunMode) (c : Channel) : bool :=
  match mode with Join => joinWanted c | Leave => leaveWanted c end.

(** ** The environment: Slack client and clock *)

(** An [error], by its message ([err.Error()]). *)
Definition error : Type := string.

(** The fields of [slack.AuthTestResponse] read by [checkAuth]. *)
Record AuthTestResponse := mkAuthTestResponse {
  User : string;
  Team : string;
}.

(** [slack.GetConversationsParameters], the fields set at lines 66-69. *)
Record GetConversationsParameters := mkParams {
  Cursor : string;
  ExcludeArchived : string;
}.

(** [*slack.Client]: the client [slack.New] builds holds the token. *)
Record Client := slackNew { token : string }.

(** Everything the program does to the outside world, in order. *)
Inductive Event :=
| Printed (text : string)
| AuthTested (err : option error)
| ConversationsFetched (params : GetConversationsParameters)
    (page : list Channel) (nextCursor : string) (err : option error)
| ChannelJoined (name : string) (err : option error)
| ChannelLeft (channelID : string) (err : option error)
| ReadMarkSet (channelID ts : string) (err : option error)
| Slept (nanoseconds : Z)
| ClockRead (unix : Z).

(** The methods of the client and the functions of package [time] the
    program calls, over a state [W] of the outside world; reading the clock
    leaves the world as it is.  The results
    [JoinChannelContext] and [LeaveChannelContext] return besides the error
    are discarded by the program ([_]) and left out. *)
Record Env (W : Type) := mkEnv {
  AuthTestContext : Client → W → W * (AuthTestResponse * option error);
  GetConversationsContext :
    Client → GetConversationsParameters → W →
    W * (list Channel * string * option error);
  JoinChannelContext : Client → string → W → W * option error;
  LeaveChannelContext : Client → string → W → W * option error;
  SetChannelReadMarkContext : Client → string → string → W → W * option error;
  timeSleep : Z → W → W;
  timeNowUnix : W → Z;
}.
Arguments AuthTestContext {W}.
Arguments GetConversationsContext {W}.
Arguments JoinChannelContext {W}.
Arguments LeaveChannelContext {W}.
Arguments SetChannelReadMarkContext {W}.
Arguments timeSleep {W}.
Arguments timeNowUnix {W}.

(** [time.Second], a [time.Duration] in nanoseconds. *)
Definition Second : Z := 1000000000.

(** Line feed and tabulation, the escapes of the format strings. *)
Definition LF : string := String (Ascii.ascii_of_nat 10) "".
Definition TAB : string := String (Ascii.ascii_of_nat 9) "".

(** The separator line printed between the phases. *)
Definition separator : string := LF +:+ "--------------------" +:+ LF.

(** How a command ends: it returns an error or [nil], it dereferences a nil
    client, or the pagination loop is still running when the fuel of the
    model is spent. *)
Inductive Outcome :=
| Returned (err : option error)
| Panicked
| OutOfFuel.

(** ** Computations: state of the world, trace, result *)

Definition IO (W A : Type) : Type := W → W * list Event * A.

Definition ret {W A} (a : A) : IO W A := λ w, (w, [], a).

Definition bind {W A B} (m : IO W A) (k : A → IO W B) : IO W B :=
  λ w, let '(w1, t1, a) := m w in
       let '(w2, t2, b) := k a w1 in
       (w2, t1 ++ t2, b).

Declare Scope io_scope.
Notation "'let*' x ':=' m 'in' k" := (bind m (λ x, k))
  (at level 10, x pattern, m at level 100, k at level 200) : io_scope.
Notation "m ;; k" := (bind m (λ _, k))
  (at level 100, k at level 200, right associativity) : io_scope.
Local Open Scope io_scope.

Definition worldOf {W A} (r : W * list Event * A) : W := r.1.1.
Definition traceOf {W A} (r : W * list Event * A) : list Event := r.1.2.
Definition resultOf {W A} (r : W * list Event * A) : A := r.2.

(** [for _, x := range xs { body }] where the body may return from the
    enclosing function with an error: [Some e] stops the loop with [e]. *)
Fixpoint forRange {W A} (xs : list A) (body : A → IO W (option error))
    : IO W (option error) :=
  match xs with
  | [] => ret None
  | x :: xs' =>
      let* err := body x in
      match err with
      | Some e => ret (Some e)
      | None => forRange xs' body
      end
  end.

Section Program.
Context {W : Type} (env : Env W).

(** [fmt.Printf] with its arguments substituted. *)
Definition printf (text : string) : IO W unit := λ w, (w, [Printed text], tt).

Definition authTest (api : Client) : IO W (AuthTestResponse * option error) :=
  λ w, let '(w', (resp, err)) := AuthTestContext env api w in
       (w', [AuthTested err], (resp, err)).

Definition getConversations (client : Client)
    (params : GetConversationsParameters)
    : IO W (list Channel * string * option error) :=
  λ w, let '(w', (page, next, err)) := GetConversationsContext env client params w in
       (w', [ConversationsFetched params page next err], (page, next, err)).

Definition joinChannel (client : Client) (name : string)
    : IO W (option error) :=
  λ w, let '(w', err) := JoinChannelContext env client name w in
       (w', [ChannelJoined name err], err).

Definition leaveChannel (client : Client) (channelID : string)
    : IO W (option error) :=
  λ w, let '(w', err) := LeaveChannelContext env client channelID w in
       (w', [ChannelLeft channelID err], err).

Definition setChannelReadMark (client : Client) (channelID ts : string)
    : IO W (option error) :=
  λ w, let '(w', err) := SetChannelReadMarkContext env client channelID ts w in
       (w', [ReadMarkSet channelID ts err], err).

Definition sleep (d : Z) : IO W unit :=
  λ w, (timeSleep env d w, [Slept d], tt).

Definition nowUnix : IO W Z :=
  λ w, (w, [ClockRead (timeNowUnix env w)], timeNowUnix env w).

(** [checkAuth] (lines 45-60); a nil client is [None]. *)
Definition checkAuth (slackKey : string)
    : IO W (option Client * option error) :=
  if Nat.eqb (String.length slackKey) 0
  then ret (None, Some "no slack auth key provided")
  else
    let api := slackNew slackKey in
    let* (authResp, err) := authTest api in
    match err with
    | Some e => ret (None, Some e)
    | None =>
        printf ("Logged in as: " +:+ User authResp +:+ LF +:+ TAB
                +:+ "Team: " +:+ Team authResp +:+ LF);;
        ret (Some api, None)
    end.

(** The loop of [getAllChannels] (lines 65-79), entered with the current
    values of [channels] and [cursor].  [None] when the fuel is spent. *)
Fixpoint getAllChannelsFrom (fuel : nat) (client : Client)
    (channels : list Channel) (cursor : string)
    : IO W (option (list Channel * option error)) :=
  match fuel with
  | O => ret None
  | S fuel' =>
      let params := mkParams cursor "true" in
      let* (channelPage, nextCursor, err) := getConversations client params in
      match err with
      | Some e => ret (Some ([], Some e))
      | None =>
          let channels := channels ++ channelPage in
          if Nat.eqb (String.length nextCursor) 0
          then ret (Some (channels, None))
          else getAllChannelsFrom fuel' client channels nextCursor
      end
  end.

(** [getAllChannels] (lines 62-81). *)
Definition getAllChannels (fuel : nat) (client : Client)
    : IO W (option (list Channel * option error)) :=
  getAllChannelsFrom fuel client [] "".

(** [joinSuppportCmd], lines 100-169: what the command does with the
    channels it listed. *)
Definition joinSuppportCmd_body (dryRun : bool) (client : Client)
    (channels : list Channel) : IO W (option error) :=
  let '(supportChannelNames, channelIDs) := joinCollect channels in
  printf separator;;
  if Nat.eqb (length supportChannelNames) 0
  then
    printf ("There are no support channels left for you to join." +:+ LF);;
    ret None
  else
    let supportChannelNames := sortStrings supportChannelNames in
    printf ("You will be joining the following channels:" +:+ LF);;
    forRange supportChannelNames (λ channelName,
      printf (channelName +:+ LF);; ret None);;
    if dryRun
    then
      printf separator;;
      printf ("Dry run only, no joins were performed." +:+ LF);;
      ret None
    else
      let* err := forRange supportChannelNames (λ channelName,
        let* err := joinChannel client channelName in
        match err with
        | Some e => ret (Some e)
        | None => printf ("Joined " +:+ channelName +:+ LF);; ret None
        end) in
      match err with
      | Some e => ret (Some e)
      | None =>
          printf separator;;
          printf ("Marking all the joined channels as read." +:+ LF);;
          sleep (5 * Second);;
          let* now := nowUnix in
          let timestamp : string := pretty now in
          printf (timestamp +:+ LF);;
          let* err := forRange supportChannelNames (λ channelName,
            let channelID := mapIndex channelIDs channelName in
            let* err := setChannelReadMark client channelID timestamp in
            match err with
            | Some e => ret (Some e)
            | None =>
                printf (channelName +:+ " is marked as read." +:+ LF);;
                ret None
            end) in
          match err with
          | Some e => ret (Some e)
          | None =>
              printf separator;;
              printf ("Done!" +:+ LF +:+ LF);;
              ret None
          end
      end.

(** The advisory of lines 227-230 and 246-249. *)
Definition printCannotLeave (cannotLeave : list string) : IO W (option error) :=
  printf ("The following shared channels must be left manually:" +:+ LF);;
  forRange cannotLeave (λ channel, printf (channel +:+ LF);; ret None).

(** [leaveSuppportCmd], lines 190-254. *)
Definition leaveSuppportCmd_body (dryRun : bool) (client : Client)
    (channels : list Channel) : IO W (option error) :=
  let acc := leaveCollect channels in
  let supportChannelNames := la_names acc in
  let cannotLeave := la_cannotLeave acc in
  let channelIDs := la_ids acc in
  printf separator;;
  if Nat.eqb (length supportChannelNames) 0
  then
    printf ("There are no support channels left for you to leave." +:+ LF);;
    ret None
  else
    let supportChannelNames := sortStrings supportChannelNames in
    printf ("You will be leaving the following channels:" +:+ LF);;
    forRange supportChannelNames (λ channelName,
      printf (channelName +:+ LF);; ret None);;
    if dryRun
    then
      printf separator;;
      printCannotLeave cannotLeave;;
      printf (LF +:+ "Dry run only, no exits were performed." +:+ LF);;
      ret None
    else
      printf separator;;
      let* err := forRange supportChannelNames (λ channelName,
        let channelID := mapIndex channelIDs channelName in
        let* err := leaveChannel client channelID in
        match err with
        | Some e => ret (Some e)
        | None => printf ("Left " +:+ channelName +:+ LF);; ret None
        end) in
      match err with
      | Some e => ret (Some e)
      | None =>
          printf separator;;
          printCannotLeave cannotLeave;;
          printf separator;;
          printf ("Done!" +:+ LF +:+ LF);;
          ret None
      end.

(** The body of the command of a mode. *)
Definition commandBody (mode : RunMode) (dryRun : bool) (client : Client)
    (channels : list Channel) : IO W (option error) :=
  match mode with
  | Join => joinSuppportCmd_body dryRun client channels
  | Leave => leaveSuppportCmd_body dryRun client channels
  end.

(** The part the two commands share, lines 88-98 and 178-188, followed by
    the body of the command. *)
Definition runCmd (body : Client → list Channel → IO W (option error))
    (slackKey : string) (fuel : nat) : IO W Outcome :=
  let* (client, err) := checkAuth slackKey in
  match err with
  | Some e => ret (Returned (Some e))
  | None =>
      match client with
      | None => ret Panicked
      | Some client =>
          let* listed := getAllChannels fuel client in
          match listed with
          | None => ret OutOfFuel
          | Some (channels, err) =>
              match err with
              | Some e => ret (Returned (Some e))
              | None =>
                  let* err := body client channels in
                  ret (Returned err)
              end
          end
      end
  end.

(** The function [joinSuppportCmd] runs (lines 87-170), with the flags
    [slackKey] and [dryRun] as arguments. *)
Definition joinSuppportCmd (slackKey : string) (dryRun : bool) (fuel : nat)
    : IO W Outcome :=
  runCmd (joinSuppportCmd_body dryRun) slackKey fuel.

(** The function [leaveSuppportCmd] runs (lines 177-255). *)
Definition leaveSuppportCmd (slackKey : string) (dryRun : bool) (fuel : nat)
    : IO W Outcome :=
  runCmd (leaveSuppportCmd_body dryRun) slackKey fuel.

End Program.

(** ** Reading a trace *)

(** The calls that change the membership or the read cursor. *)
Definition isMutating (ev : Event) : bool :=
  match ev with
  | ChannelJoined _ _ | ChannelLeft _ _ | ReadMarkSet _ _ _ => true
  | _ => false
  end.

Definition isPrinted (ev : Event) : bool :=
  match ev with Printed _ => true | _ => false end.


(** The error of a call, [None] for a call that succeeded and for an event
    that is no call. *)
Definition failure (ev : Event) : option error :=
  match ev with
  | AuthTested err | ConversationsFetched _ _ _ err | ChannelJoined _ err
  | ChannelLeft _ err | ReadMarkSet _ _ err => err
  | _ => None
  end.

Definition mutatingCalls (tr : list Event) : list Event :=
  List.filter isMutating tr.

(** The trace without what was printed. *)
Definition effects (tr : list Event) : list Event :=
  List.filter (λ ev, negb (isPrinted ev)) tr.

(** The times read from the clock, in order. *)
Definition clockReads (tr : list Event) : list Z :=
  omap (λ ev, match ev with ClockRead t => Some t | _ => None end) tr.

(** The calls of a loop that stops at the first error: one successful call
    for each element of [done], then the failed call if there is one. *)
Definition callsOf {A} (call : A → option error → Event) (done : list A)
    (failed : option (A * error)) : list Event :=
  ((λ x, call x None) <$> done)
  ++ match failed with Some (x, e) => [call x (Some e)] | None => [] end.

(** [done] and [failed] account for a loop over [xs]: all of [xs] is done,
    or the loop failed on the element after [done]. *)
Definition stoppedAt {A} (xs done : list A) (failed : option (A * error))
    : Prop :=
  match failed with
  | None => xs = done
  | Some (x, _) => ∃ rest, xs = done ++ x :: rest
  end.

(** The lines of a list of names, as lines 134-136 print them. *)
Definition printedLines (names : list string) : list Event :=
  (λ n, Printed (n +:+ LF)) <$> names.

(** The advisory of the leave command: its header and the channels. *)
Definition advisory (cannotLeave : list string) : list Event :=
  Printed ("The following shared channels must be left manually:" +:+ LF)
  :: printedLines cannotLeave.

(** The message for an empty selection. *)
Definition nothingToDo (mode : RunMode) : string :=
  match mode with
  | Join => "There are no support channels left for you to join." +:+ LF
  | Leave => "There are no support channels left for you to leave." +:+ LF
  end.

(** The trace of a loop that calls, stops at the first error and prints a
    line after each call that succeeded. *)
Definition loopTrace {A} (call : A → option error → Event) (line : A → string)
    (done : list A) (failed : option (A * error)) : list Event :=
  flat_map (λ x, [call x None; Printed (line x)]) done
  ++ match failed with Some (x, e) => [call x (Some e)] | None => [] end.

(** The plan both commands print before they act (lines 125-136, 212-223). *)
Definition plan (mode : RunMode) (names : list string) : list Event :=
  Printed separator
  :: Printed (match mode with
              | Join => "You will be joining the following channels:" +:+ LF
              | Leave => "You will be leaving the following channels:" +:+ LF
              end)
  :: printedLines names.

(** The events between the joins and the marks (lines 153-157). *)
Definition settling (now : Z) : list Event :=
  [Printed separator;
   Printed ("Marking all the joined channels as read." +:+ LF);
   Slept (5 * Second);
   ClockRead now;
   Printed (pretty now +:+ LF)].

(** The last two lines of a command that ran to its end. *)
Definition finished : list Event :=
  [Printed separator; Printed ("Done!" +:+ LF +:+ LF)].

Definition markEvent (ids : gmap string string) (ts : string) (name : string)
    (err : option error) : Event :=
  ReadMarkSet (mapIndex ids name) ts err.

Definition leaveEvent (ids : gmap string string) (name : string)
    (err : option error) : Event :=
  ChannelLeft (mapIndex ids name) err.

(** The lines printed after a successful call. *)
Definition joinedLine (name : string) : string := "Joined " +:+ name +:+ LF.
Definition markedLine (name : string) : string :=
  name +:+ " is marked as read." +:+ LF.
Definition leftLine (name : string) : string := "Left " +:+ name +:+ LF.

(** ** The runs of the two commands

    The traces and results a command can end with, given its selection:
    [joinBody_run] and [leaveBody_run] show that every run of the code is
    one of these. *)
Inductive JoinRun (dryRun : bool) (sel : SelectionResult)
    : list Event → option error → Prop :=
| JoinNothing :
    orderedNames sel = [] →
    JoinRun dryRun sel [Printed separator; Printed (nothingToDo Join)] None
| JoinDry :
    orderedNames sel ≠ [] → dryRun = true →
    JoinRun dryRun sel
      (plan Join (orderedNames sel)
       ++ [Printed separator;
           Printed ("Dry run only, no joins were performed." +:+ LF)])
      None
| JoinFailed done name rest e :
    orderedNames sel ≠ [] → dryRun = false →
    orderedNames sel = done ++ name :: rest →
    JoinRun dryRun sel
      (plan Join (orderedNames sel)
       ++ loopTrace ChannelJoined joinedLine done (Some (name, e)))
      (Some e)
| JoinMarked now marked failed :
    orderedNames sel ≠ [] → dryRun = false →
    stoppedAt (orderedNames sel) marked failed →
    JoinRun dryRun sel
      (plan Join (orderedNames sel)
       ++ loopTrace ChannelJoined joinedLine (orderedNames sel) None
       ++ settling now
       ++ loopTrace (markEvent (idByName sel) (pretty now)) markedLine
                    marked failed
       ++ (if failed is None then finished else []))
      (snd <$> failed).

Inductive LeaveRun (dryRun : bool) (sel : SelectionResult)
    : list Event → option error → Prop :=
| LeaveNothing :
    orderedNames sel = [] →
    LeaveRun dryRun sel [Printed separator; Printed (nothingToDo Leave)] None
| LeaveDry :
    orderedNames sel ≠ [] → dryRun = true →
    LeaveRun dryRun sel
      (plan Leave (orderedNames sel)
       ++ [Printed separator]
       ++ advisory (unreachable sel)
       ++ [Printed (LF +:+ "Dry run only, no exits were performed." +:+ LF)])
      None
| LeaveLive done failed :
    orderedNames sel ≠ [] → dryRun = false →
    stoppedAt (orderedNames sel) done failed →
    LeaveRun dryRun sel
      (plan Leave (orderedNames sel)
       ++ [Printed separator]
       ++ loopTrace (leaveEvent (idByName sel)) leftLine done failed
       ++ (if failed is None
           then [Printed separator] ++ advisory (unreachable sel) ++ finished
           else []))
      (snd <$> failed).

(** The successful page fetches of a listing that starts at [cursor]: each
    one asks with the cursor the one before returned. *)
Fixpoint fetchTrace (cursor : string) (pages : list (list Channel * string))
    : list Event :=
  match pages with
  | [] => []
  | (page, next) :: rest =>
      ConversationsFetched (mkParams cursor "true") page next None
      :: fetchTrace next rest
  end.

(** The cursor the listing holds after these pages. *)
Fixpoint cursorAfter (cursor : string) (pages : list (list Channel * string))
    : string :=
  match pages with
  | [] => cursor
  | (_, next) :: rest => cursorAfter next rest
  end.

(** What a run of the pagination loop is, by its result: the pages fetched
    before the last call all came with a cursor, each call asked with the
    cursor of the page before, and the last call ended the listing, failed,
    or was not made for lack of fuel. *)
Definition listingRun {W} (fuel : nat) (acc : list Channel) (cursor : string)
    (r : W * list Event * option (list Channel * option error)) : Prop :=
  ∃ pages : list (list Channel * string),
    Forall (λ p, p.2 ≠ "") pages
    ∧ match resultOf r with
      | None =>
          length pages = fuel ∧ traceOf r = fetchTrace cursor pages
      | Some (channels, None) =>
          ∃ page,
            (length pages < fuel)%nat
            ∧ traceOf r =
              fetchTrace cursor pages
              ++ [ConversationsFetched
                    (mkParams (cursorAfter cursor pages) "true") page "" None]
            ∧ channels = acc ++ concat pages.*1 ++ page
      | Some (channels, Some e) =>
          ∃ page next,
            (length pages < fuel)%nat
            ∧ traceOf r =
              fetchTrace cursor pages
              ++ [ConversationsFetched
                    (mkParams (cursorAfter cursor pages) "true") page next
                    (Some e)]
            ∧ channels = []
      end.

(** The world after the calls of a trace, made again in the same order. *)
Fixpoint replay {W} (env : Env W) (client : Client) (tr : list Event) (w : W)
    : W :=
  match tr with
  | [] => w
  | ev :: tr' =>
      let w' :=
        match ev with
        | Printed _ | ClockRead _ => w
        | AuthTested _ => (AuthTestContext env client w).1
        | ConversationsFetched params _ _ _ =>
            (GetConversationsContext env client params w).1
        | ChannelJoined name _ => (JoinChannelContext env client name w).1
        | ChannelLeft channelID _ =>
            (LeaveChannelContext env client channelID w).1
        | ReadMarkSet channelID ts _ =>
            (SetChannelReadMarkContext env client channelID ts w).1
        | Slept d => timeSleep env d w
        end
      in replay env client tr' w'
  end.

(** A computation changes the world by the calls of its trace and by
    nothing else. *)
Definition Faithful {W A} (env : Env W) (client : Client) (m : IO W A)
    : Prop :=
  ∀ w, worldOf (m w) = replay env client (traceOf (m w)) w.

(** ** A scripted directory, for running the commands on examples *)

(** What the user has joined and left so far. *)
Record Membership := mkMembership {
  joinedNames : list string;
  leftIDs : list string;
}.

Record Script := mkScript {
  s_pages : string → list Channel * string * option error;
  s_joinErr : string → option error;
  s_leaveErr : string → option error;
  s_markErr : string → option error;
  s_clock : Z;
}.

Definition scriptedEnv (s : Script) : Env Membership := {|
  AuthTestContext _ w := (w, (mkAuthTestResponse "operator" "team", None));
  GetConversationsContext _ params w := (w, s_pages s (Cursor params));
  JoinChannelContext _ name w :=
    match s_joinErr s name with
    | Some e => (w, Some e)
    | None => (mkMembership (joinedNames w ++ [name]) (leftIDs w), None)
    end;
  LeaveChannelContext _ channelID w :=
    match s_leaveErr s channelID with
    | Some e => (w, Some e)
    | None => (mkMembership (joinedNames w) (leftIDs w ++ [channelID]), None)
    end;
  SetChannelReadMarkContext _ channelID _ w := (w, s_markErr s channelID);
  timeSleep _ w := w;
  timeNowUnix _ := s_clock s;
|}.

(** A directory in which every call succeeds and the listing is one empty
    page. *)
Definition quietScript : Script :=
  mkScript (λ _, ([], "", None)) (λ _, None) (λ _, None) (λ _, None)
           1700000000.

Definition noMembership : Membership := mkMembership [] [].

(** Scenario D: two channels to join, the second mark call fails. *)
Definition scenarioD_channels : list Channel :=
  [mkChannel "C1" "_acme" false false false;
   mkChannel "C2" "frame" false false false].

Definition scenarioD_script : Script :=
  mkScript (λ _, (scenarioD_channels, "", None)) (λ _, None) (λ _, None)
           (λ channelID,
              if String.eqb channelID "C2" then Some "mark failed" else None)
           1700000000.

(** A member of two customer channels, one of them externally shared. *)
Definition leaver_channels : list Channel :=
  [mkChannel "C7" "_beta" true true false;
   mkChannel "C1" "_acme" true false false].

(** A directory of two pages, and one whose second page cannot be
    fetched. *)
Definition pagedScript : Script :=
  mkScript (λ cursor,
              if String.eqb cursor "" then
                ([mkChannel "C1" "_acme" false false false], "page2", None)
              else if String.eqb cursor "page2" then
                ([mkChannel "C2" "frame" false false false], "", None)
              else ([], "", Some "invalid_cursor"))
           (λ _, None) (λ _, None) (λ _, None) 1700000000.

Definition brokenScript : Script :=
  mkScript (λ cursor,
              if String.eqb cursor "" then
                ([mkChannel "C1" "_acme" false false false], "page2", None)
              else ([], "", Some "ratelimited"))
           (λ _, None) (λ _, None) (λ _, None) 1700000000.

(** ** The wrapper of the commands *)

(** How [wrap] (lines 35-43) ends: the function it was given returned
    [nil] and it returns; or it returned an error, and [wrap] prints a line
    with [cmd.Println] and ends the process with [os.Exit]; or the function
    did not return. *)
Inductive WrapEnd :=
| WrapReturned
| WrapExited (printed : string) (code : Z)
| WrapPanicked
| WrapOutOfFuel.

(** [cmd.Println("Error: ", err.Error())]: the operands separated by a
    space and followed by a line feed. *)
Definition errorLine (e : error) : string := "Error: " +:+ " " +:+ e +:+ LF.

(** [wrap] (lines 35-43), applied to the function of a command. *)
Definition wrap {W} (f : IO W Outcome) : IO W WrapEnd :=
  let* out := f in
  match out with
  | Returned None => ret WrapReturned
  | Returned (Some err) => ret (WrapExited (errorLine err) 1)
  | Panicked => ret WrapPanicked
  | OutOfFuel => ret WrapOutOfFuel
  end.

(** The function of the command of a mode. *)
Definition supportCmd {W} (env : Env W) (mode : RunMode) (slackKey : string)
    (dryRun : bool) (fuel : nat) : IO W Outcome :=
  match mode with
  | Join => joinSuppportCmd env slackKey dryRun fuel
  | Leave => leaveSuppportCmd env slackKey dryRun fuel
  end.

(** A directory that hands out a cursor with every page, without end. *)
Definition endlessScript : Script :=
  mkScript (λ _, ([mkChannel "C1" "_acme" false false false], "more", None))
           (λ _, None) (λ _, None) (λ _, None) 1700000000.

(** A directory that rejects the token. *)
Definition rejectingEnv : Env Membership := {|
  AuthTestContext _ w :=
    (w, (mkAuthTestResponse "" "", Some "invalid_auth"));
  GetConversationsContext _ _ w := (w, ([], "", None));
  JoinChannelContext _ _ w := (w, None);
  LeaveChannelContext _ _ w := (w, None);
  SetChannelReadMarkContext _ _ _ w := (w, None);
  timeSleep _ w := w;
  timeNowUnix _ := 0%Z;
|}.

(** ** Selection: the loops as filters *)

Lemma joinDefaults_spec (c : Channel) (acc : JoinAcc) :
  fold_left (joinDefaultStep c) defaultSupportChannels acc =
  if bool_decide (Name c ∈ defaultSupportChannels)
  then (acc.1 ++ [Name c], <[Name c := ID c]> acc.2)
  else acc.
Proof.
  unfold defaultSupportChannels, joinDefaultStep. cbn [fold_left].
  destruct acc as [names ids]. cbn [fst snd].
  repeat match goal with
  | |- context [String.eqb ?d (Name c)] =>
      destruct (String.eqb_spec d (Name c)) as [<- | ?]
  end; try reflexivity.
  rewrite bool_decide_eq_false_2; [reflexivity |].
  rewrite !elem_of_cons, elem_of_nil. intuition congruence.
Qed.

Lemma joinStep_spec (acc : JoinAcc) (c : Channel) :
  joinStep acc c =
  if joinWanted c
  then (acc.1 ++ [Name c], <[Name c := ID c]> acc.2)
  else acc.
Proof.
  unfold joinStep, joinWanted. rewrite joinDefaults_spec.
  destruct (IsMember c), (HasPrefix (Name c) "_"); reflexivity.
Qed.

Lemma fold_joinStep (channels : list Channel) (acc : JoinAcc) :
  fold_left joinStep channels acc =
  (acc.1 ++ (Name <$> List.filter joinWanted channels),
   fold_left (λ m c, <[Name c := ID c]> m)
             (List.filter joinWanted channels) acc.2).
Proof.
  revert acc. induction channels as [|c channels IH]; intros [names ids].
  - cbn. by rewrite app_nil_r.
  - cbn [fold_left List.filter]. rewrite IH, joinStep_spec.
    destruct (joinWanted c); cbn [fst snd fmap list_fmap fold_left];
      [by rewrite <- app_assoc | done].
Qed.

Lemma joinCollect_names (channels : list Channel) :
  (joinCollect channels).1 = Name <$> List.filter joinWanted channels.
Proof. unfold joinCollect. by rewrite fold_joinStep. Qed.

Lemma joinCollect_ids (channels : list Channel) :
  (joinCollect channels).2 =
  fold_left (λ m c, <[Name c := ID c]> m) (List.filter joinWanted channels) ∅.
Proof. unfold joinCollect. by rewrite fold_joinStep. Qed.

Lemma leaveStep_spec (acc : LeaveAcc) (c : Channel) :
  leaveStep acc c =
  mkLeaveAcc
    (la_names acc ++ (if leaveWanted c then [Name c] else []))
    (la_cannotLeave acc ++ (if leaveBlocked c then [Name c] else []))
    (if leaveWanted c then <[Name c := ID c]> (la_ids acc) else la_ids acc).
Proof.
  unfold leaveStep, leaveWanted, leaveBlocked. destruct acc as [ns cl ids].
  destruct (IsMember c), (HasPrefix (Name c) "_"), (IsExtShared c);
    cbn; by rewrite ?app_nil_r.
Qed.

Lemma fold_leaveStep (channels : list Channel) (acc : LeaveAcc) :
  fold_left leaveStep channels acc =
  mkLeaveAcc
    (la_names acc ++ (Name <$> List.filter leaveWanted channels))
    (la_cannotLeave acc ++ (Name <$> List.filter leaveBlocked channels))
    (fold_left (λ m c, <[Name c := ID c]> m)
               (List.filter leaveWanted channels) (la_ids acc)).
Proof.
  revert acc. induction channels as [|c channels IH]; intros [ns cl ids].
  - cbn. by rewrite !app_nil_r.
  - cbn [fold_left List.filter]. rewrite IH, leaveStep_spec.
    cbn [la_names la_cannotLeave la_ids].
    destruct (leaveWanted c), (leaveBlocked c);
      cbn [fmap list_fmap fold_left]; by rewrite <- ?app_assoc, ?app_nil_r.
Qed.

Lemma leaveCollect_names (channels : list Channel) :
  la_names (leaveCollect channels) = Name <$> List.filter leaveWanted channels.
Proof. unfold leaveCollect. by rewrite fold_leaveStep. Qed.

Lemma leaveCollect_cannotLeave (channels : list Channel) :
  la_cannotLeave (leaveCollect channels) =
  Name <$> List.filter leaveBlocked channels.
Proof. unfold leaveCollect. by rewrite fold_leaveStep. Qed.

Lemma leaveCollect_ids (channels : list Channel) :
  la_ids (leaveCollect channels) =
  fold_left (λ m c, <[Name c := ID c]> m) (List.filter leaveWanted channels) ∅.
Proof. unfold leaveCollect. by rewrite fold_leaveStep. Qed.

(** Every name written to the map is bound to the identifier of a channel
    of that name. *)
Lemma fold_insert_lookup (cs : list Channel) (m : gmap string string)
    (n : string) :
  n ∈ (Name <$> cs) →
  ∃ c, c ∈ cs ∧ Name c = n ∧
       fold_left (λ m c, <[Name c := ID c]> m) cs m !! n = Some (ID c).
Proof.
  revert m. induction cs as [|c cs IH]; intros m Hn.
  - by apply elem_of_nil in Hn.
  - cbn [fold_left]. destruct (decide (n ∈ (Name <$> cs))) as [Hin | Hout].
    + destruct (IH (<[Name c := ID c]> m) Hin) as (c' & ? & ? & ?).
      exists c'. split_and!; [by right | done | done].
    + cbn in Hn. apply elem_of_cons in Hn as [-> | ?]; [|done].
      exists c. split_and!; [by left | done |].
      assert (∀ m', fold_left (λ m c, <[Name c := ID c]> m) cs m' !! Name c
                    = m' !! Name c) as ->.
      { clear IH. induction cs as [|c' cs IH]; intros m'; [done |].
        cbn [fold_left]. rewrite IH.
        - apply lookup_insert_ne. intros E. apply Hout. cbn. rewrite E. by left.
        - intros ?. apply Hout. cbn. by right. }
      apply lookup_insert_eq.
Qed.

(** ** [sort.Strings] *)

Lemma sortStrings_sorted (l : list string) : Sorted String.le (sortStrings l).
Proof. apply Sorted_merge_sort, _. Qed.

Lemma sortStrings_perm (l : list string) : sortStrings l ≡ₚ l.
Proof. apply merge_sort_Permutation. Qed.

(** Any procedure that returns its input rearranged in increasing order
    returns what [sortStrings] returns. *)
Lemma sortStrings_unique (l l' : list string) :
  Sorted String.le l' → l' ≡ₚ l → l' = sortStrings l.
Proof.
  intros Hs Hp. apply (Sorted_unique String.le); [done | apply sortStrings_sorted |].
  by rewrite Hp, sortStrings_perm.
Qed.

Lemma sortStrings_proper (l l' : list string) :
  l ≡ₚ l' → sortStrings l = sortStrings l'.
Proof.
  intros Hp. apply sortStrings_unique; [apply sortStrings_sorted |].
  by rewrite sortStrings_perm.
Qed.

Lemma elem_of_sortStrings (n : string) (l : list string) :
  n ∈ sortStrings l ↔ n ∈ l.
Proof. by rewrite sortStrings_perm. Qed.

Lemma sortStrings_nil_iff (l : list string) : sortStrings l = [] ↔ l = [].
Proof.
  split; [|by intros ->].
  intros E. apply Permutation_nil_r. by rewrite <- E, sortStrings_perm.
Qed.

Lemma filter_Permutation {A} (f : A → bool) (l l' : list A) :
  l ≡ₚ l' → List.filter f l ≡ₚ List.filter f l'.
Proof.
  induction 1 as [|x l l' _ IH|x y l|l l' l'' _ IH1 _ IH2]; cbn.
  - done.
  - destruct (f x); by rewrite IH.
  - destruct (f x), (f y); try done. apply perm_swap.
  - by rewrite IH1.
Qed.

Lemma elem_of_bfilter {A} (f : A → bool) (l : list A) (x : A) :
  x ∈ List.filter f l ↔ x ∈ l ∧ f x = true.
Proof. rewrite !list_elem_of_In. apply filter_In. Qed.

Lemma NoDup_bfilter_fmap {A B} (g : A → B) (f : A → bool) (l : list A) :
  NoDup (g <$> l) → NoDup (g <$> List.filter f l).
Proof.
  induction l as [|x l IH]; cbn; [done |].
  rewrite NoDup_cons. intros [Hx Hl]. destruct (f x); [|by apply IH].
  cbn. apply NoDup_cons. split; [|by apply IH].
  intros Hin. apply Hx. apply list_elem_of_fmap in Hin as (y & -> & Hy).
  apply list_elem_of_fmap. exists y. split; [done |].
  by apply elem_of_bfilter in Hy as [? _].
Qed.

(** ** The selection policy *)

Lemma orderedNames_join (channels : list Channel) :
  orderedNames (selector Join channels) =
  sortStrings (Name <$> List.filter joinWanted channels).
Proof. cbn. by rewrite joinCollect_names. Qed.

Lemma orderedNames_leave (channels : list Channel) :
  orderedNames (selector Leave channels) =
  sortStrings (Name <$> List.filter leaveWanted channels).
Proof. cbn. by rewrite leaveCollect_names. Qed.

Lemma unreachable_leave (channels : list Channel) :
  unreachable (selector Leave channels) =
  Name <$> List.filter leaveBlocked channels.
Proof. cbn. by rewrite leaveCollect_cannotLeave. Qed.

Lemma elem_of_orderedNames_join (channels : list Channel) (n : string) :
  n ∈ orderedNames (selector Join channels) ↔
  ∃ c, c ∈ channels ∧ Name c = n ∧ joinWanted c = true.
Proof.
  rewrite orderedNames_join, elem_of_sortStrings, list_elem_of_fmap.
  split.
  - intros (c & -> & Hc). apply elem_of_bfilter in Hc as [? ?]. eauto.
  - intros (c & ? & <- & ?). exists c. by rewrite elem_of_bfilter.
Qed.

Lemma elem_of_orderedNames_leave (channels : list Channel) (n : string) :
  n ∈ orderedNames (selector Leave channels) ↔
  ∃ c, c ∈ channels ∧ Name c = n ∧ leaveWanted c = true.
Proof.
  rewrite orderedNames_leave, elem_of_sortStrings, list_elem_of_fmap.
  split.
  - intros (c & -> & Hc). apply elem_of_bfilter in Hc as [? ?]. eauto.
  - intros (c & ? & <- & ?). exists c. by rewrite elem_of_bfilter.
Qed.

(** Every selected name has its identifier in the side table, and it is the
    identifier of a selected channel of that name. *)
Lemma idByName_selected (mode : RunMode) (channels : list Channel) (n : string) :
  n ∈ orderedNames (selector mode channels) →
  ∃ c, c ∈ channels ∧ wanted mode c = true ∧ Name c = n ∧
       idByName (selector mode channels) !! n = Some (ID c).
Proof.
  destruct mode.
  - rewrite orderedNames_join, elem_of_sortStrings. intros Hn.
    cbn [selector idByName]. rewrite joinCollect_ids.
    destruct (fold_insert_lookup _ ∅ n Hn) as (c & Hc & ? & ?).
    apply elem_of_bfilter in Hc as [? ?]. eauto.
  - rewrite orderedNames_leave, elem_of_sortStrings. intros Hn.
    cbn [selector idByName]. rewrite leaveCollect_ids.
    destruct (fold_insert_lookup _ ∅ n Hn) as (c & Hc & ? & ?).
    apply elem_of_bfilter in Hc as [? ?]. eauto.
Qed.

(** The order of [sort.Strings] is the order of the bytes: capitals come
    before [_], and [_] before small letters. *)
Example sortStrings_bytes :
  sortStrings ["frame"; "_acme"; "Zeta"; "sentry"; "_Acme"] =
  ["Zeta"; "_Acme"; "_acme"; "frame"; "sentry"].
Proof. vm_compute. reflexivity. Qed.

(** C1. In Join mode every name of [orderedNames] is the name of a listed
    channel the user is not a member of, and it starts with [_] or is,
    byte for byte, one of customersupport, frame, monitoring, sentry; a
    channel the user is not a member of whose name starts with [_] is
    selected whatever its other flags are. *)
Theorem C1_join_selection (channels : list Channel) :
  let sel := selector Join channels in
  (∀ n, n ∈ orderedNames sel →
     ∃ c, c ∈ channels ∧ Name c = n ∧ IsMember c = false ∧
          (HasPrefix n "_" = true
           ∨ n ∈ ["customersupport"; "frame"; "monitoring"; "sentry"]))
  ∧ (∀ c, c ∈ channels → IsMember c = true →
       (∀ c', c' ∈ channels → Name c' = Name c → IsMember c' = true) →
       Name c ∉ orderedNames sel)
  ∧ (∀ c, c ∈ channels → IsMember c = false → HasPrefix (Name c) "_" = true →
       ∀ shared archived,
         IsExtShared c = shared → IsArchived c = archived →
         Name c ∈ orderedNames sel).
Proof.
  cbn zeta. split_and!.
  - intros n Hn. apply elem_of_orderedNames_join in Hn as (c & Hc & <- & Hw).
    exists c. unfold joinWanted in Hw.
    apply andb_true_iff in Hw as [Hm Hw]. apply negb_true_iff in Hm.
    split_and!; [done.. |].
    apply orb_true_iff in Hw as [? | Hd]; [by left | right].
    by apply bool_decide_eq_true in Hd.
  - intros c Hc Hm Hall Hn.
    apply elem_of_orderedNames_join in Hn as (c' & Hc' & Hname & Hw).
    unfold joinWanted in Hw. apply andb_true_iff in Hw as [Hm' _].
    apply negb_true_iff in Hm'. specialize (Hall c' Hc' Hname). congruence.
  - intros c Hc Hm Hp _ _ _ _. apply elem_of_orderedNames_join.
    exists c. split_and!; [done.. |]. unfold joinWanted. by rewrite Hm, Hp.
Qed.

Lemma NoDup_fmap_inj_on {A B} (f : A → B) (l : list A) (x y : A) :
  NoDup (f <$> l) → x ∈ l → y ∈ l → f x = f y → x = y.
Proof.
  induction l as [|z l IH]; cbn; [by intros _ ?%elem_of_nil |].
  rewrite NoDup_cons. intros [Hz Hl] Hx Hy E.
  apply elem_of_cons in Hx as [-> | Hx]; apply elem_of_cons in Hy as [-> | Hy].
  - done.
  - exfalso. apply Hz. rewrite E. by apply list_elem_of_fmap_2.
  - exfalso. apply Hz. rewrite <- E. by apply list_elem_of_fmap_2.
  - by apply IH.
Qed.

(** When the listed names are distinct, no channel the user is a member of
    has its name selected. *)
Corollary join_skips_members (channels : list Channel) (c : Channel) :
  NoDup (Name <$> channels) → c ∈ channels → IsMember c = true →
  Name c ∉ orderedNames (selector Join channels).
Proof.
  intros Hnd Hc Hm Hn.
  apply elem_of_orderedNames_join in Hn as (c' & Hc' & Hname & Hw).
  assert (c' = c) as -> by eauto using NoDup_fmap_inj_on.
  unfold joinWanted in Hw. by rewrite Hm in Hw.
Qed.

(** Scenario A and the exact match: [Frame] is not [frame]. *)
Example scenario_A :
  orderedNames (selector Join
    [mkChannel "C1" "_acme" false false false;
     mkChannel "C2" "frame" false false false;
     mkChannel "C3" "random" false false false;
     mkChannel "C4" "Frame" false false false]) = ["_acme"; "frame"].
Proof. vm_compute. reflexivity. Qed.

Lemma filter_app_remove {A} (f : A → bool) (l1 l2 : list A) (x : A) :
  f x = false → List.filter f (l1 ++ x :: l2) = List.filter f (l1 ++ l2).
Proof. intros Hx. rewrite !List.filter_app. cbn. by rewrite Hx. Qed.

(** C2. In Leave mode every name of [orderedNames] is the name of a listed
    channel the user is a member of, that starts with [_] and is not
    externally shared; an externally shared member channel whose name
    starts with [_] has its name in [unreachable] and adds nothing to
    [orderedNames]: the selection is what it is without that channel. *)
Theorem C2_leave_selection (channels : list Channel) :
  let sel := selector Leave channels in
  (∀ n, n ∈ orderedNames sel →
     ∃ c, c ∈ channels ∧ Name c = n ∧ IsMember c = true ∧
          HasPrefix n "_" = true ∧ IsExtShared c = false)
  ∧ (∀ before c after,
       channels = before ++ c :: after →
       IsMember c = true → HasPrefix (Name c) "_" = true →
       IsExtShared c = true →
       Name c ∈ unreachable sel
       ∧ orderedNames sel = orderedNames (selector Leave (before ++ after))).
Proof.
  cbn zeta. split.
  - intros n Hn. apply elem_of_orderedNames_leave in Hn as (c & Hc & <- & Hw).
    exists c. unfold leaveWanted in Hw.
    apply andb_true_iff in Hw as [Hw Hs]. apply andb_true_iff in Hw as [Hm Hp].
    apply negb_true_iff in Hs. done.
  - intros before c after -> Hm Hp Hs. split.
    + rewrite unreachable_leave. apply list_elem_of_fmap_2, elem_of_bfilter.
      split; [apply elem_of_app; right; by left |].
      unfold leaveBlocked. by rewrite Hm, Hp, Hs.
    + rewrite !orderedNames_leave, filter_app_remove; [done |].
      unfold leaveWanted. by rewrite Hm, Hp, Hs.
Qed.

(** Scenario B, the selection. *)
Example scenario_B_selection :
  let sel := selector Leave [mkChannel "C1" "_acme" true true false] in
  orderedNames sel = [] ∧ unreachable sel = ["_acme"].
Proof. vm_compute. done. Qed.

(** C3, as stated, fails: the loops do not remove duplicates, so two listed
    channels of one name give the name twice, and a name can be both
    selected and unreachable. *)
Lemma C3_duplicate_names_counterexample :
  let twice := [mkChannel "C1" "_acme" false false false;
                mkChannel "C2" "_acme" false false false] in
  let mixed := [mkChannel "C1" "_acme" true true false;
                mkChannel "C2" "_acme" true false false] in
  orderedNames (selector Join twice) = ["_acme"; "_acme"]
  ∧ ¬ NoDup (orderedNames (selector Join twice))
  ∧ "_acme" ∈ orderedNames (selector Leave mixed)
  ∧ "_acme" ∈ unreachable (selector Leave mixed).
Proof.
  cbn zeta. split_and!.
  - vm_compute. reflexivity.
  - assert (orderedNames (selector Join
      [mkChannel "C1" "_acme" false false false;
       mkChannel "C2" "_acme" false false false]) = ["_acme"; "_acme"]) as ->
      by (vm_compute; reflexivity).
    rewrite NoDup_cons. intros [Hin _]. apply Hin. by left.
  - assert (orderedNames (selector Leave
      [mkChannel "C1" "_acme" true true false;
       mkChannel "C2" "_acme" true false false]) = ["_acme"]) as ->
      by (vm_compute; reflexivity).
    by left.
  - assert (unreachable (selector Leave
      [mkChannel "C1" "_acme" true true false;
       mkChannel "C2" "_acme" true false false]) = ["_acme"]) as ->
      by (vm_compute; reflexivity).
    by left.
Qed.

(** C3, amended. In both modes [orderedNames] is in ascending order and is
    the same for every ordering of the input; when the listed channels have
    distinct names it has no duplicates and shares no name with
    [unreachable]. *)
Theorem C3_sorted_and_distinct (mode : RunMode) (channels : list Channel) :
  let sel := selector mode channels in
  Sorted String.le (orderedNames sel)
  ∧ (∀ channels', channels' ≡ₚ channels →
       orderedNames (selector mode channels') = orderedNames sel)
  ∧ (NoDup (Name <$> channels) →
       NoDup (orderedNames sel)
       ∧ ∀ n, n ∈ orderedNames sel → n ∉ unreachable sel).
Proof.
  cbn zeta. split_and!.
  - destruct mode; apply sortStrings_sorted.
  - intros channels' Hp. destruct mode.
    + rewrite !orderedNames_join. apply sortStrings_proper.
      by apply fmap_Permutation, filter_Permutation.
    + rewrite !orderedNames_leave. apply sortStrings_proper.
      by apply fmap_Permutation, filter_Permutation.
  - intros Hnd. split.
    + destruct mode.
      * rewrite orderedNames_join, sortStrings_perm.
        by apply NoDup_bfilter_fmap.
      * rewrite orderedNames_leave, sortStrings_perm.
        by apply NoDup_bfilter_fmap.
    + intros n Hn. destruct mode; [cbn; apply not_elem_of_nil |].
      rewrite unreachable_leave. intros Hu.
      apply elem_of_orderedNames_leave in Hn as (c & Hc & Hname & Hw).
      apply list_elem_of_fmap in Hu as (c' & -> & Hc').
      apply elem_of_bfilter in Hc' as [Hc' Hb].
      assert (c = c') as -> by eauto using NoDup_fmap_inj_on.
      unfold leaveWanted in Hw. unfold leaveBlocked in Hb.
      destruct (IsExtShared c'); [by rewrite andb_false_r in Hw |].
      by rewrite andb_false_r in Hb.
Qed.

Lemma C3_sorted_and_distinct_witness :
  let channels := [mkChannel "C2" "frame" false false false;
                   mkChannel "C1" "_acme" false false false] in
  NoDup (Name <$> channels)
  ∧ NoDup (orderedNames (selector Join channels))
  ∧ orderedNames (selector Join channels) = ["_acme"; "frame"].
Proof.
  cbn zeta. split_and!.
  - vm_compute. repeat constructor; rewrite ?elem_of_cons, ?elem_of_nil;
      intuition discriminate.
  - apply (C3_sorted_and_distinct Join
      [mkChannel "C2" "frame" false false false;
       mkChannel "C1" "_acme" false false false]).
    vm_compute. repeat constructor; rewrite ?elem_of_cons, ?elem_of_nil;
      intuition discriminate.
  - vm_compute. reflexivity.
Defined.

(** ** Computations and their traces *)

Tactic Notation "io_simpl" :=
  cbn [worldOf traceOf resultOf fst snd printf ret sleep nowUnix app
       fmap option_fmap option_map].
Tactic Notation "io_simpl" "in" hyp(H) :=
  cbn [worldOf traceOf resultOf fst snd printf ret sleep nowUnix app
       fmap option_fmap option_map] in H.
Tactic Notation "io_simpl" "in" "*" :=
  cbn [worldOf traceOf resultOf fst snd printf ret sleep nowUnix app
       fmap option_fmap option_map] in *.

(** Closes a goal on a run with a run of the same shape, the two traces
    being equal up to the grouping of the lists. *)
Ltac by_run H :=
  lazymatch type of H with
  | ?R ?d ?s ?t1 ?r1 =>
      lazymatch goal with
      | |- ?R' _ _ ?t2 ?r2 =>
          replace t2 with t1;
          [ exact H
          | unfold plan, settling, finished, advisory, printedLines,
                   joinedLine, markedLine, leftLine;
            cbn [app]; rewrite ?app_nil_r, <- ?app_assoc; reflexivity ]
      end
  end.

Section Traces.
Context {W : Type} (env : Env W).

Lemma bind_run {A B} (m : IO W A) (k : A → IO W B) (w : W) :
  bind m k w =
  (worldOf (k (resultOf (m w)) (worldOf (m w))),
   traceOf (m w) ++ traceOf (k (resultOf (m w)) (worldOf (m w))),
   resultOf (k (resultOf (m w)) (worldOf (m w)))).
Proof.
  unfold bind, worldOf, traceOf, resultOf.
  destruct (m w) as [[w1 t1] a]. cbn. by destruct (k a w1) as [[w2 t2] b].
Qed.

Lemma forRange_lines (line : string → string) (xs : list string) (w : W) :
  forRange xs (λ x, printf (line x);; ret None) w =
  (w, (λ x, Printed (line x)) <$> xs, None).
Proof.
  induction xs as [|x xs IH]; [done |].
  cbn [forRange]. unfold bind, printf, ret in *. cbn in *. by rewrite IH.
Qed.

(** A loop whose body makes one call, returns its error, and prints a line
    when there is none. *)
Lemma forRange_calls {A} (call : A → IO W (option error))
    (ev : A → option error → Event) (line : A → string) :
  (∀ x w, ∃ w' err, call x w = (w', [ev x err], err)) →
  ∀ xs w, ∃ w' done failed,
    stoppedAt xs done failed
    ∧ forRange xs (λ x,
        let* err := call x in
        match err with
        | Some e => ret (Some e)
        | None => printf (line x);; ret None
        end) w
      = (w', loopTrace ev line done failed, snd <$> failed).
Proof.
  intros Hcall xs. set (body := λ x, _).
  induction xs as [|x xs IH]; intros w.
  - exists w, [], None. done.
  - cbn [forRange]. unfold bind at 1. unfold body at 1. unfold bind at 1.
    destruct (Hcall x w) as (w1 & err & ->). destruct err as [e|].
    + exists w1, [], (Some (x, e)). split; [by exists xs | done].
    + destruct (IH w1) as (w2 & done & failed & Hstop & Hrun).
      unfold printf, ret, bind at 1. rewrite Hrun.
      exists w2, (x :: done), failed. split; [|done].
      destruct failed as [[y e]|]; cbn in *.
      * destruct Hstop as [rest ->]. by exists rest.
      * by subst.
Qed.

Lemma joinChannel_event (client : Client) (name : string) (w : W) :
  ∃ w' err, joinChannel env client name w = (w', [ChannelJoined name err], err).
Proof.
  unfold joinChannel. destruct (JoinChannelContext env client name w). eauto.
Qed.

Lemma leaveChannel_event (client : Client) (ids : gmap string string)
    (name : string) (w : W) :
  ∃ w' err, leaveChannel env client (mapIndex ids name) w
            = (w', [leaveEvent ids name err], err).
Proof.
  unfold leaveChannel, leaveEvent.
  destruct (LeaveChannelContext env client (mapIndex ids name) w). eauto.
Qed.

Lemma setChannelReadMark_event (client : Client) (ids : gmap string string)
    (ts name : string) (w : W) :
  ∃ w' err, setChannelReadMark env client (mapIndex ids name) ts w
            = (w', [markEvent ids ts name err], err).
Proof.
  unfold setChannelReadMark, markEvent.
  destruct (SetChannelReadMarkContext env client (mapIndex ids name) ts w).
  eauto.
Qed.

Lemma length_eqb_0 {A} (l : list A) :
  Nat.eqb (length l) 0 = bool_decide (l = []).
Proof. by destruct l. Qed.

(** Every run of the body of [joinSuppportCmd] is a [JoinRun]. *)
Lemma joinBody_run (dryRun : bool) (client : Client) (channels : list Channel)
    (w : W) :
  let r := joinSuppportCmd_body env dryRun client channels w in
  JoinRun dryRun (selector Join channels) (traceOf r) (resultOf r).
Proof.
  cbn zeta. unfold joinSuppportCmd_body.
  assert (orderedNames (selector Join channels) = []
          ↔ (joinCollect channels).1 = []) as Hnil
    by apply sortStrings_nil_iff.
  set (sel := selector Join channels) in *.
  assert (orderedNames sel = sortStrings (joinCollect channels).1) as Hnames
    by done.
  assert (idByName sel = (joinCollect channels).2) as Hids by done.
  clearbody sel. destruct (joinCollect channels) as [names0 ids].
  cbn [fst snd] in *. rewrite <- Hnames. subst ids.
  rewrite bind_run, length_eqb_0. io_simpl.
  case_bool_decide as Hempty.
  - apply Hnil in Hempty. rewrite !bind_run. io_simpl. by apply JoinNothing.
  - assert (orderedNames sel ≠ []) as Hne by (by rewrite Hnil).
    rewrite !bind_run, forRange_lines. io_simpl.
    destruct dryRun.
    + rewrite !bind_run. io_simpl. by apply JoinDry.
    + rewrite bind_run.
      destruct (forRange_calls (joinChannel env client) ChannelJoined
                  joinedLine (joinChannel_event client)
                  (orderedNames sel) w)
        as (w1 & done & failed & Hstop & Hrun).
      unfold joinedLine in Hrun. rewrite Hrun. clear Hrun. io_simpl.
      destruct failed as [[name e]|].
      * destruct Hstop as [rest Hsplit]. io_simpl. rewrite app_nil_r.
        by apply (JoinFailed false sel done name rest e).
      * cbn in Hstop. subst done. cbn [fmap option_fmap option_map].
        rewrite !bind_run. io_simpl.
        set (now := timeNowUnix env (timeSleep env (5 * Second) w1)).
        destruct (forRange_calls
                    (λ n, setChannelReadMark env client
                            (mapIndex (idByName sel) n) (pretty now))
                    (markEvent (idByName sel) (pretty now)) markedLine
                    (setChannelReadMark_event client (idByName sel)
                                              (pretty now))
                    (orderedNames sel) (timeSleep env (5 * Second) w1))
          as (w2 & marked & failed & Hstop & Hrun).
        unfold markedLine in Hrun. rewrite Hrun. clear Hrun. io_simpl.
        pose proof (JoinMarked false sel now marked failed Hne eq_refl Hstop)
          as Hjr.
        destruct failed as [[name e]|]; io_simpl.
        -- by_run Hjr.
        -- rewrite !bind_run. io_simpl. by_run Hjr.
Qed.

(** Every run of the body of [leaveSuppportCmd] is a [LeaveRun]. *)
Lemma leaveBody_run (dryRun : bool) (client : Client) (channels : list Channel)
    (w : W) :
  let r := leaveSuppportCmd_body env dryRun client channels w in
  LeaveRun dryRun (selector Leave channels) (traceOf r) (resultOf r).
Proof.
  cbn zeta. unfold leaveSuppportCmd_body, printCannotLeave.
  assert (orderedNames (selector Leave channels) = []
          ↔ la_names (leaveCollect channels) = []) as Hnil
    by apply sortStrings_nil_iff.
  set (sel := selector Leave channels) in *.
  assert (orderedNames sel = sortStrings (la_names (leaveCollect channels)))
    as Hnames by done.
  assert (idByName sel = la_ids (leaveCollect channels)) as Hids by done.
  assert (unreachable sel = la_cannotLeave (leaveCollect channels))
    as Hun by done.
  clearbody sel. cbn zeta. rewrite <- Hnames, <- Hids, <- Hun.
  rewrite bind_run, length_eqb_0. io_simpl.
  case_bool_decide as Hempty.
  - apply Hnil in Hempty. rewrite !bind_run. io_simpl. by apply LeaveNothing.
  - assert (orderedNames sel ≠ []) as Hne by (by rewrite Hnil).
    rewrite !bind_run, forRange_lines. io_simpl.
    destruct dryRun.
    + rewrite !bind_run, forRange_lines. io_simpl.
      pose proof (LeaveDry true sel Hne eq_refl) as Hlr. by_run Hlr.
    + rewrite !bind_run. io_simpl.
      destruct (forRange_calls
                  (λ n, leaveChannel env client (mapIndex (idByName sel) n))
                  (leaveEvent (idByName sel)) leftLine
                  (leaveChannel_event client (idByName sel))
                  (orderedNames sel) w)
        as (w1 & done & failed & Hstop & Hrun).
      unfold leftLine in Hrun. rewrite Hrun. clear Hrun. io_simpl.
      pose proof (LeaveLive false sel done failed Hne eq_refl Hstop) as Hlr.
      destruct failed as [[name e]|]; io_simpl.
      * by_run Hlr.
      * rewrite !bind_run, forRange_lines. io_simpl. by_run Hlr.
Qed.

(** *** The world changes by the recorded calls only *)

Lemma replay_app (client : Client) (t1 t2 : list Event) (w : W) :
  replay env client (t1 ++ t2) w = replay env client t2 (replay env client t1 w).
Proof. revert w. induction t1 as [|ev t1 IH]; intros w; cbn; [done | apply IH]. Qed.

Lemma faithful_ret {A} (client : Client) (a : A) :
  Faithful env client (ret a).
Proof. by intros w. Qed.

Lemma faithful_bind {A B} (client : Client) (m : IO W A) (k : A → IO W B) :
  Faithful env client m → (∀ a, Faithful env client (k a)) →
  Faithful env client (bind m k).
Proof.
  intros Hm Hk w. rewrite bind_run. io_simpl.
  by rewrite replay_app, <- Hm, <- Hk.
Qed.

Lemma faithful_forRange {A} (client : Client) (xs : list A)
    (body : A → IO W (option error)) :
  (∀ x, Faithful env client (body x)) →
  Faithful env client (forRange xs body).
Proof.
  intros Hbody. induction xs as [|x xs IH]; [apply faithful_ret |].
  cbn [forRange]. apply faithful_bind; [done |].
  intros [e|]; [apply faithful_ret | done].
Qed.

Lemma faithful_printf (client : Client) (text : string) :
  Faithful env client (printf text).
Proof. by intros w. Qed.

Lemma faithful_sleep (client : Client) (d : Z) :
  Faithful env client (sleep env d).
Proof. by intros w. Qed.

Lemma faithful_nowUnix (client : Client) : Faithful env client (nowUnix env).
Proof. by intros w. Qed.

Lemma faithful_joinChannel (client : Client) (name : string) :
  Faithful env client (joinChannel env client name).
Proof.
  intros w. unfold joinChannel, worldOf, traceOf. cbn.
  destruct (JoinChannelContext env client name w) eqn:E. cbn. by rewrite E.
Qed.

Lemma faithful_leaveChannel (client : Client) (channelID : string) :
  Faithful env client (leaveChannel env client channelID).
Proof.
  intros w. unfold leaveChannel, worldOf, traceOf. cbn.
  destruct (LeaveChannelContext env client channelID w) eqn:E. cbn. by rewrite E.
Qed.

Lemma faithful_setChannelReadMark (client : Client) (channelID ts : string) :
  Faithful env client (setChannelReadMark env client channelID ts).
Proof.
  intros w. unfold setChannelReadMark, worldOf, traceOf. cbn.
  destruct (SetChannelReadMarkContext env client channelID ts w) eqn:E. cbn. by rewrite E.
Qed.

(** Proves [Faithful] for a computation built from the primitives. *)
Ltac faithful :=
  repeat first
    [ progress intros
    | apply faithful_ret
    | apply faithful_printf
    | apply faithful_sleep
    | apply faithful_nowUnix
    | apply faithful_joinChannel
    | apply faithful_leaveChannel
    | apply faithful_setChannelReadMark
    | apply faithful_bind
    | apply faithful_forRange
    | match goal with
      | |- Faithful _ _ (if ?b then _ else _) => destruct b
      | |- Faithful _ _ (match ?x with Some _ => _ | None => _ end) =>
          destruct x
      end ].

Lemma faithful_commandBody (mode : RunMode) (dryRun : bool) (client : Client)
    (channels : list Channel) :
  Faithful env client (commandBody env mode dryRun client channels).
Proof.
  destruct mode; cbn [commandBody].
  - unfold joinSuppportCmd_body. destruct (joinCollect channels) as [ns ids].
    faithful.
  - unfold leaveSuppportCmd_body, printCannotLeave. cbn zeta. faithful.
Qed.

End Traces.

(** ** The listing *)

Section Listing.
Context {W : Type} (env : Env W).

Lemma length_eqb_0_string (s : string) :
  Nat.eqb (String.length s) 0 = bool_decide (s = "").
Proof. by destruct s. Qed.

Lemma getConversations_event (client : Client)
    (params : GetConversationsParameters) (w : W) :
  ∃ w' page next err,
    getConversations env client params w =
    (w', [ConversationsFetched params page next err], (page, next, err)).
Proof.
  unfold getConversations.
  destruct (GetConversationsContext env client params w)
    as [w1 [[page next] err]]. eauto.
Qed.

Lemma getAllChannelsFrom_run (fuel : nat) (client : Client)
    (acc : list Channel) (cursor : string) (w : W) :
  listingRun fuel acc cursor (getAllChannelsFrom env fuel client acc cursor w).
Proof.
  revert acc cursor w. induction fuel as [|fuel IH]; intros acc cursor w.
  - exists []. by split; [constructor |].
  - cbn [getAllChannelsFrom]. unfold listingRun.
    rewrite bind_run.
    destruct (getConversations_event client (mkParams cursor "true") w)
      as (w1 & page & next & err & ->).
    destruct err as [e|]; io_simpl.
    + exists []. split; [constructor |]. exists page, next.
      split_and!; [cbn; lia | done | done].
    + rewrite length_eqb_0_string. case_bool_decide as Hnext.
      * subst next. exists []. split; [constructor |]. exists page.
        io_simpl. split_and!; [cbn; lia | done |]. by rewrite app_nil_l.
      * destruct (IH (acc ++ page) next w1) as (pages & Hpages & Hrun).
        exists ((page, next) :: pages). split; [by constructor |].
        destruct (resultOf (getAllChannelsFrom env fuel client (acc ++ page)
                              next w1)) as [[channels [e|]]|].
        -- destruct Hrun as (page' & next' & Hlen & -> & ->).
           exists page', next'. split_and!; [cbn; lia | done | done].
        -- destruct Hrun as (page' & Hlen & -> & ->).
           exists page'. split_and!; [cbn; lia | done |].
           cbn. by rewrite <- !app_assoc.
        -- destruct Hrun as [Hlen ->]. split; [cbn; lia | done].
Qed.

(** Once the loop returns, more fuel changes nothing. *)
Lemma getAllChannelsFrom_fuel (fuel fuel' : nat) (client : Client)
    (acc : list Channel) (cursor : string) (w : W) :
  (fuel ≤ fuel')%nat →
  resultOf (getAllChannelsFrom env fuel client acc cursor w) ≠ None →
  getAllChannelsFrom env fuel' client acc cursor w =
  getAllChannelsFrom env fuel client acc cursor w.
Proof.
  revert fuel' acc cursor w.
  induction fuel as [|fuel IH]; intros fuel' acc cursor w Hle Hret;
    [done |].
  destruct fuel' as [|fuel']; [lia |].
  cbn [getAllChannelsFrom] in *. rewrite !bind_run in *.
  destruct (getConversations env client (mkParams cursor "true") w)
    as [[w1 t1] [[page next] err]].
  destruct err as [e|]; io_simpl; [done |].
  io_simpl in Hret. destruct (Nat.eqb (String.length next) 0); [done |].
  rewrite IH; [done | lia | done].
Qed.

(** C9. The listing asks for the first page with the empty cursor and for
    each further page with the cursor the page before returned, as long as
    that cursor is not empty.  When a page comes with the empty cursor it
    returns the pages joined in the order fetched, and no error; when a
    fetch fails it returns that error and no channel at all, whatever was
    fetched before.  It returns as soon as the directory ends the listing or
    fails, whatever fuel is left; and a command whose listing failed returns
    the error without selecting or calling anything. *)
Theorem C9_listing_all_or_nothing (fuel : nat) (client : Client) (w : W) :
  let r := getAllChannels env fuel client w in
  (∃ pages : list (list Channel * string),
     Forall (λ p, p.2 ≠ "") pages
     ∧ match resultOf r with
       | None => length pages = fuel ∧ traceOf r = fetchTrace "" pages
       | Some (channels, None) =>
           ∃ page,
             traceOf r =
             fetchTrace "" pages
             ++ [ConversationsFetched
                   (mkParams (cursorAfter "" pages) "true") page "" None]
             ∧ channels = concat pages.*1 ++ page
       | Some (channels, Some e) =>
           ∃ page next,
             traceOf r =
             fetchTrace "" pages
             ++ [ConversationsFetched
                   (mkParams (cursorAfter "" pages) "true") page next (Some e)]
             ∧ channels = []
       end)
  ∧ (∀ fuel', (fuel ≤ fuel')%nat → resultOf r ≠ None →
       getAllChannels env fuel' client w = r)
  ∧ (∀ body slackKey w0 t0 channels e,
       checkAuth env slackKey w0 = (w, t0, (Some client, None)) →
       resultOf r = Some (channels, Some e) →
       runCmd env body slackKey fuel w0 =
       (worldOf r, t0 ++ traceOf r, Returned (Some e))).
Proof.
  cbn zeta. split_and!.
  - destruct (getAllChannelsFrom_run fuel client [] "" w)
      as (pages & Hpages & Hrun).
    exists pages. split; [done |]. unfold getAllChannels.
    destruct (resultOf (getAllChannelsFrom env fuel client [] "" w))
      as [[channels [e|]]|].
    + destruct Hrun as (page & next & _ & ? & ?). eauto.
    + destruct Hrun as (page & _ & ? & ?). eauto.
    + done.
  - intros fuel' Hle Hret. by apply getAllChannelsFrom_fuel.
  - intros body slackKey w0 t0 channels e Hauth Hres.
    unfold runCmd. rewrite bind_run, Hauth. io_simpl.
    rewrite bind_run.
    destruct (getAllChannels env fuel client w) as [[w1 t1] res].
    io_simpl in *. subst res. io_simpl. by rewrite app_nil_r.
Qed.

(** A command whose listing succeeded runs its body on the channels
    listed. *)
Lemma runCmd_listed body slackKey fuel client (w0 w1 w2 : W) t0 t1 channels :
  checkAuth env slackKey w0 = (w1, t0, (Some client, None)) →
  getAllChannels env fuel client w1 = (w2, t1, Some (channels, None)) →
  runCmd env body slackKey fuel w0 =
  (worldOf (body client channels w2),
   t0 ++ t1 ++ traceOf (body client channels w2),
   Returned (resultOf (body client channels w2))).
Proof.
  intros Hauth Hlist. unfold runCmd.
  rewrite bind_run, Hauth. io_simpl. rewrite bind_run, Hlist. io_simpl.
  rewrite bind_run. io_simpl. by rewrite app_nil_r.
Qed.

(** A client that [checkAuth] returns without an error is not nil, so no
    command dereferences a nil client. *)
Lemma runCmd_never_panics body slackKey fuel (w : W) :
  resultOf (runCmd env body slackKey fuel w) ≠ Panicked.
Proof.
  unfold runCmd, checkAuth. rewrite bind_run.
  destruct (Nat.eqb (String.length slackKey) 0); io_simpl; [done |].
  rewrite bind_run. unfold authTest.
  destruct (AuthTestContext env (slackNew slackKey) w) as [w1 [resp err]].
  destruct err as [e|]; io_simpl; [done |].
  rewrite !bind_run. io_simpl. rewrite bind_run.
  destruct (getAllChannels env fuel (slackNew slackKey) w1)
    as [[w2 t2] listed].
  destruct listed as [[channels err]|]; io_simpl; [|done].
  destruct err as [e|]; [done |].
  rewrite bind_run. by io_simpl.
Qed.

(** Neither [checkAuth] nor the listing joins, leaves or marks. *)
Lemma checkAuth_cases (slackKey : string) (w : W) :
  ∃ w1 t0,
    mutatingCalls t0 = []
    ∧ ((∃ e, checkAuth env slackKey w = (w1, t0, (None, Some e)))
       ∨ checkAuth env slackKey w = (w1, t0, (Some (slackNew slackKey), None))).
Proof.
  unfold checkAuth. destruct (Nat.eqb (String.length slackKey) 0).
  - exists w, []. split; [done |]. left. by eexists.
  - rewrite bind_run. unfold authTest.
    destruct (AuthTestContext env (slackNew slackKey) w) as [w1 [resp err]].
    destruct err as [e|]; io_simpl.
    + eexists _, _. split; [|left; by eexists]. done.
    + rewrite bind_run. io_simpl. eexists _, _. split; [|by right]. done.
Qed.

Lemma mutatingCalls_fetchTrace (cursor : string)
    (pages : list (list Channel * string)) :
  mutatingCalls (fetchTrace cursor pages) = [].
Proof.
  revert cursor. induction pages as [|[page next] pages IH]; intros cursor;
    [done | apply IH].
Qed.

Lemma getAllChannels_no_mutation (fuel : nat) (client : Client) (w : W) :
  mutatingCalls (traceOf (getAllChannels env fuel client w)) = [].
Proof.
  destruct (getAllChannelsFrom_run fuel client [] "" w)
    as (pages & _ & Hrun).
  pose proof (mutatingCalls_fetchTrace "" pages) as Hfetch.
  unfold getAllChannels, mutatingCalls in *.
  destruct (resultOf (getAllChannelsFrom env fuel client [] "" w))
    as [[channels [e|]]|].
  - destruct Hrun as (page & next & _ & -> & _).
    by rewrite List.filter_app, Hfetch.
  - destruct Hrun as (page & _ & -> & _).
    by rewrite List.filter_app, Hfetch.
  - by destruct Hrun as [_ ->].
Qed.

(** A command ends before its body, on an error of [checkAuth] or of the
    listing or for lack of fuel, having made no mutating call; or it runs
    its body on the channels listed and returns what the body returns. *)
Lemma runCmd_cases body (slackKey : string) (fuel : nat) (w : W) :
  let r := runCmd env body slackKey fuel w in
  (mutatingCalls (traceOf r) = [] ∧ resultOf r ≠ Returned None)
  ∨ ∃ w1 w2 t0 t1 channels,
      let client := slackNew slackKey in
      checkAuth env slackKey w = (w1, t0, (Some client, None))
      ∧ getAllChannels env fuel client w1 = (w2, t1, Some (channels, None))
      ∧ mutatingCalls (t0 ++ t1) = []
      ∧ r = (worldOf (body client channels w2),
             t0 ++ t1 ++ traceOf (body client channels w2),
             Returned (resultOf (body client channels w2))).
Proof.
  cbn zeta.
  destruct (checkAuth_cases slackKey w) as (w1 & t0 & Ht0 & [[e Hauth] | Hauth]).
  - left. unfold runCmd. rewrite bind_run, Hauth. io_simpl.
    by rewrite app_nil_r.
  - pose proof (getAllChannels_no_mutation fuel (slackNew slackKey) w1) as Hm.
    destruct (getAllChannels env fuel (slackNew slackKey) w1)
      as [[w2 t1] listed] eqn:Hlist.
    io_simpl in Hm.
    assert (mutatingCalls (t0 ++ t1) = []) as Hpre.
    { unfold mutatingCalls in *. by rewrite List.filter_app, Ht0, Hm. }
    destruct listed as [[channels err]|]; [destruct err as [e|] |].
    + left. unfold runCmd. rewrite bind_run, Hauth. io_simpl.
      rewrite bind_run, Hlist. io_simpl. by rewrite app_nil_r.
    + right. exists w1, w2, t0, t1, channels. split_and!; [done.. |].
      by eapply runCmd_listed.
    + left. unfold runCmd. rewrite bind_run, Hauth. io_simpl.
      rewrite bind_run, Hlist. io_simpl. by rewrite app_nil_r.
Qed.

End Listing.

(** ** Reading the traces of the runs *)

Lemma filter_printedLines (f : Event → bool) (names : list string) :
  (∀ s, f (Printed s) = false) → List.filter f (printedLines names) = [].
Proof.
  intros Hf. unfold printedLines.
  induction names as [|n names IH]; cbn; [done | by rewrite Hf].
Qed.

Lemma filter_loopTrace {A} (f : Event → bool) (call : A → option error → Event)
    (line : A → string) (done : list A) (failed : option (A * error)) :
  (∀ s, f (Printed s) = false) → (∀ x err, f (call x err) = true) →
  List.filter f (loopTrace call line done failed) = callsOf call done failed.
Proof.
  intros Hp Hc. unfold loopTrace, callsOf. rewrite List.filter_app. f_equal.
  - induction done as [|x done IH]; cbn; [done |]. by rewrite Hc, Hp, IH.
  - destruct failed as [[x e]|]; cbn; [by rewrite Hc | done].
Qed.

Lemma filter_loopTrace_none {A} (f : Event → bool)
    (call : A → option error → Event) (line : A → string) (done : list A)
    (failed : option (A * error)) :
  (∀ s, f (Printed s) = false) → (∀ x err, f (call x err) = false) →
  List.filter f (loopTrace call line done failed) = [].
Proof.
  intros Hp Hc. unfold loopTrace. rewrite List.filter_app.
  replace (List.filter f (flat_map (λ x, [call x None; Printed (line x)]) done))
    with (@nil Event).
  - destruct failed as [[x e]|]; cbn; [by rewrite Hc | done].
  - induction done as [|x done IH]; cbn; [done |]. by rewrite Hc, Hp.
Qed.

Lemma Forall_printedLines (P : Event → Prop) (names : list string) :
  (∀ s, P (Printed s)) → Forall P (printedLines names).
Proof. intros HP. unfold printedLines. apply Forall_fmap, Forall_true. intros n. apply HP. Qed.

Lemma Forall_loopTrace {A} (P : Event → Prop) (call : A → option error → Event)
    (line : A → string) (done : list A) (failed : option (A * error)) :
  (∀ s, P (Printed s)) → (∀ x, P (call x None)) →
  (∀ x e, failed = Some (x, e) → P (call x (Some e))) →
  Forall P (loopTrace call line done failed).
Proof.
  intros Hp Hok Hbad. unfold loopTrace. apply Forall_app. split.
  - induction done as [|x done IH]; cbn; [constructor |].
    repeat constructor; [apply Hok | apply Hp | apply IH].
  - destruct failed as [[x e]|]; repeat constructor. by apply Hbad.
Qed.

Lemma Forall_plan (P : Event → Prop) (mode : RunMode) (names : list string) :
  (∀ s, P (Printed s)) → Forall P (plan mode names).
Proof.
  intros HP. unfold plan. repeat constructor; try apply HP.
  by apply Forall_printedLines.
Qed.

Lemma Forall_advisory (P : Event → Prop) (names : list string) :
  (∀ s, P (Printed s)) → Forall P (advisory names).
Proof.
  intros HP. unfold advisory. constructor; [apply HP |].
  by apply Forall_printedLines.
Qed.

(** A join run is made of prints, joins, marks, one pause and one reading of
    the clock; a leave run of prints and leaves. *)
Lemma JoinRun_Forall (P : Event → Prop) dryRun sel tr res :
  (∀ s, P (Printed s)) → (∀ n err, P (ChannelJoined n err)) →
  (∀ id ts err, P (ReadMarkSet id ts err)) →
  (∀ d, P (Slept d)) → (∀ t, P (ClockRead t)) →
  JoinRun dryRun sel tr res → Forall P tr.
Proof.
  intros Hp Hj Hm Hs Hc. destruct 1;
    rewrite ?Forall_app; repeat split;
    try (apply Forall_plan; done);
    try (apply Forall_loopTrace; intros; unfold markEvent; done);
    try (destruct failed; unfold finished);
    unfold settling; repeat constructor; done.
Qed.

Lemma LeaveRun_Forall (P : Event → Prop) dryRun sel tr res :
  (∀ s, P (Printed s)) → (∀ id err, P (ChannelLeft id err)) →
  LeaveRun dryRun sel tr res → Forall P tr.
Proof.
  intros Hp Hl. destruct 1;
    rewrite ?Forall_app; repeat split;
    try (apply Forall_plan; done);
    try (apply Forall_advisory; done);
    try (apply Forall_loopTrace; intros; unfold leaveEvent; done);
    try (destruct failed; rewrite ?Forall_app; repeat split;
         try (apply Forall_advisory; done); unfold finished);
    repeat constructor; done.
Qed.

(** Computes a filter over the trace of a run. *)
Ltac filter_trace :=
  unfold effects, mutatingCalls;
  rewrite ?List.filter_app;
  unfold plan, settling, finished, advisory;
  cbn [List.filter isMutating isPrinted negb app];
  rewrite ?filter_printedLines by done;
  rewrite ?(filter_loopTrace_none _ ChannelJoined) by done;
  rewrite ?(filter_loopTrace _ ChannelJoined) by done;
  rewrite ?(filter_loopTrace _ (markEvent _ _)) by done;
  rewrite ?(filter_loopTrace _ (leaveEvent _)) by done;
  cbn [app]; rewrite ?app_nil_r.

Lemma loopTrace_split {A} (call : A → option error → Event)
    (line : A → string) (done : list A) (failed : option (A * error)) :
  loopTrace call line done failed =
  loopTrace call line done None
  ++ match failed with Some (x, e) => [call x (Some e)] | None => [] end.
Proof. unfold loopTrace. by rewrite app_nil_r. Qed.

(** In a trace whose calls succeed except perhaps the last one, a failed
    call is the last event. *)
Lemma failed_event_is_last (ok tail pre post : list Event) (ev : Event)
    (e : error) :
  Forall (λ ev', failure ev' = None) ok → (length tail ≤ 1)%nat →
  ok ++ tail = pre ++ ev :: post → failure ev = Some e →
  tail = [ev] ∧ post = [] ∧ pre = ok.
Proof.
  intros Hok Hlen Heq Hev.
  apply List.app_eq_app in Heq as [l [[-> Hl] | [-> Hl]]].
  - destruct l as [|x l]; cbn in Hl.
    + subst tail. destruct post; cbn in Hlen; [|lia]. by rewrite app_nil_r.
    + injection Hl as <- _. exfalso.
      apply Forall_app in Hok as [_ Hok]. apply Forall_cons in Hok as [Hok _].
      congruence.
  - subst tail. rewrite length_app in Hlen. cbn in Hlen.
    destruct l, post; cbn in Hlen; try lia. by rewrite app_nil_r.
Qed.

Lemma omap_printedLines {B} (f : Event → option B) (names : list string) :
  (∀ s, f (Printed s) = None) → omap f (printedLines names) = [].
Proof.
  intros Hf. unfold printedLines.
  induction names as [|n names IH]; cbn; [done | by rewrite Hf].
Qed.

Lemma omap_loopTrace_none {A B} (f : Event → option B)
    (call : A → option error → Event) (line : A → string) (done : list A)
    (failed : option (A * error)) :
  (∀ s, f (Printed s) = None) → (∀ x err, f (call x err) = None) →
  omap f (loopTrace call line done failed) = [].
Proof.
  intros Hp Hc. unfold loopTrace. rewrite omap_app.
  replace (omap f (flat_map (λ x, [call x None; Printed (line x)]) done))
    with (@nil B).
  - destruct failed as [[x e]|]; cbn; [by rewrite Hc | done].
  - induction done as [|x done IH]; cbn; [done |]. by rewrite Hc, Hp.
Qed.

(** The clock is read once in a run that reaches the marks and never in
    another one. *)
Lemma JoinRun_clockReads dryRun sel tr res :
  JoinRun dryRun sel tr res →
  clockReads tr = [] ∨
  ∃ now marked failed,
    dryRun = false ∧ orderedNames sel ≠ []
    ∧ stoppedAt (orderedNames sel) marked failed
    ∧ res = snd <$> failed
    ∧ clockReads tr = [now]
    ∧ tr = plan Join (orderedNames sel)
           ++ loopTrace ChannelJoined joinedLine (orderedNames sel) None
           ++ settling now
           ++ loopTrace (markEvent (idByName sel) (pretty now)) markedLine
                        marked failed
           ++ (if failed is None then finished else []).
Proof.
  destruct 1 as [| | |now marked failed Hne Hdry Hstop].
  - by left.
  - left. unfold clockReads, plan. rewrite omap_app. cbn.
    by rewrite omap_printedLines.
  - left. unfold clockReads, plan. rewrite omap_app. cbn.
    by rewrite omap_printedLines, omap_loopTrace_none.
  - right. exists now, marked, failed. split_and!; try done.
    unfold clockReads, plan, settling. rewrite !omap_app. cbn.
    rewrite omap_printedLines, !omap_loopTrace_none by done.
    by destruct failed.
Qed.

Lemma elem_of_clockReads (tr : list Event) (t : Z) :
  ClockRead t ∈ tr → t ∈ clockReads tr.
Proof. intros Hin. unfold clockReads. apply list_elem_of_omap. by exists (ClockRead t). Qed.

(** A run is a sequence of events none of which is a failed call, followed
    when it returns an error by the mutating call that failed with it. *)
Lemma JoinRun_ok_tail dryRun sel tr res :
  JoinRun dryRun sel tr res →
  ∃ ok, Forall (λ ev, failure ev = None) ok
        ∧ (tr = ok ∧ res = None
           ∨ ∃ ev e, tr = ok ++ [ev] ∧ failure ev = Some e ∧ res = Some e
                     ∧ isMutating ev = true).
Proof.
  destruct 1 as [| |gone name rest e|now marked failed].
  - eexists. split; [|by left]. by repeat constructor.
  - eexists. split; [|by left].
    rewrite Forall_app. split; [by apply Forall_plan | by repeat constructor].
  - rewrite loopTrace_split, app_assoc. eexists.
    split; [|right; eexists _, _; split_and!; [reflexivity | done..]].
    rewrite Forall_app. split; [by apply Forall_plan |].
    by apply Forall_loopTrace.
  - destruct failed as [[name e]|].
    + rewrite (loopTrace_split (markEvent _ _)), app_nil_r, !app_assoc.
      eexists.
      split; [|right; eexists _, _; split_and!; [reflexivity | done..]].
      rewrite !Forall_app. split_and!;
        [by apply Forall_plan | by apply Forall_loopTrace
        | by repeat constructor | by apply Forall_loopTrace].
    + eexists. split; [|by left].
      rewrite !Forall_app. split_and!;
        [by apply Forall_plan | by apply Forall_loopTrace
        | by repeat constructor | by apply Forall_loopTrace
        | by repeat constructor].
Qed.

Lemma LeaveRun_ok_tail dryRun sel tr res :
  LeaveRun dryRun sel tr res →
  ∃ ok, Forall (λ ev, failure ev = None) ok
        ∧ (tr = ok ∧ res = None
           ∨ ∃ ev e, tr = ok ++ [ev] ∧ failure ev = Some e ∧ res = Some e
                     ∧ isMutating ev = true).
Proof.
  destruct 1 as [| |gone failed].
  - eexists. split; [|by left]. by repeat constructor.
  - eexists. split; [|by left].
    rewrite !Forall_app. split_and!;
      [by apply Forall_plan | by repeat constructor
      | by apply Forall_advisory | by repeat constructor].
  - destruct failed as [[name e]|].
    + rewrite (loopTrace_split (leaveEvent _)), app_nil_r, !app_assoc.
      eexists.
      split; [|right; eexists _, _; split_and!; [reflexivity | done..]].
      rewrite !Forall_app. split_and!;
        [by apply Forall_plan | by repeat constructor
        | by apply Forall_loopTrace].
    + eexists. split; [|by left].
      rewrite !Forall_app. split_and!;
        [by apply Forall_plan | by repeat constructor
        | by apply Forall_loopTrace | by repeat constructor
        | by apply Forall_advisory | by repeat constructor].
Qed.

(** [orderedNames] is in ascending order and has one entry for each
    selected channel. *)
Lemma orderedNames_sorted_perm (mode : RunMode) (channels : list Channel) :
  Sorted String.le (orderedNames (selector mode channels))
  ∧ orderedNames (selector mode channels)
    ≡ₚ Name <$> List.filter (wanted mode) channels.
Proof.
  destruct mode; cbn [wanted].
  - rewrite orderedNames_join. split; [apply sortStrings_sorted |].
    apply sortStrings_perm.
  - rewrite orderedNames_leave. split; [apply sortStrings_sorted |].
    apply sortStrings_perm.
Qed.

(** The beginning of a list in ascending order is in ascending order. *)
Lemma Sorted_le_app_l (l1 l2 : list string) :
  Sorted String.le (l1 ++ l2) → Sorted String.le l1.
Proof.
  intros Hs. apply StronglySorted_Sorted.
  apply (StronglySorted_app_1_l String.le l1 l2).
  by apply Sorted_StronglySorted; [apply _ |].
Qed.

Lemma stoppedAt_sorted (xs gone : list string)
    (failed : option (string * error)) :
  stoppedAt xs gone failed → Sorted String.le xs → Sorted String.le gone.
Proof.
  destruct failed as [[x e]|]; cbn.
  - intros [rest ->]. apply Sorted_le_app_l.
  - by intros ->.
Qed.

(** Every selected name has the identifier of a listed, selected channel of
    that name. *)
Lemma mapIndex_selected (mode : RunMode) (channels : list Channel)
    (n : string) :
  n ∈ orderedNames (selector mode channels) →
  ∃ c, c ∈ channels ∧ wanted mode c = true ∧ Name c = n
       ∧ mapIndex (idByName (selector mode channels)) n = ID c.
Proof.
  intros Hn.
  destruct (idByName_selected mode channels n Hn) as (c & ? & ? & ? & Hid).
  exists c. unfold mapIndex. by rewrite Hid.
Qed.

(** When the listed channels have distinct names, each selected channel has
    its name exactly once in [orderedNames] and its own identifier in the
    side table. *)
Lemma distinct_names_selection (mode : RunMode) (channels : list Channel) :
  NoDup (Name <$> channels) →
  NoDup (orderedNames (selector mode channels))
  ∧ ∀ c, c ∈ channels → wanted mode c = true →
         Name c ∈ orderedNames (selector mode channels)
         ∧ mapIndex (idByName (selector mode channels)) (Name c) = ID c.
Proof.
  intros Hnd. split.
  - destruct (orderedNames_sorted_perm mode channels) as [_ ->].
    by apply NoDup_bfilter_fmap.
  - intros c Hc Hw.
    assert (Name c ∈ orderedNames (selector mode channels)) as Hin.
    { destruct mode.
      - apply elem_of_orderedNames_join. by exists c.
      - apply elem_of_orderedNames_leave. by exists c. }
    split; [done |].
    destruct (mapIndex_selected mode channels (Name c) Hin)
      as (c' & Hc' & _ & Hname & ->).
    f_equal. eauto using NoDup_fmap_inj_on.
Qed.

Section Driver.
Context {W : Type} (env : Env W).

Lemma commandBody_join_run dryRun client channels (w : W) :
  let r := commandBody env Join dryRun client channels w in
  JoinRun dryRun (selector Join channels) (traceOf r) (resultOf r).
Proof. apply joinBody_run. Qed.

Lemma commandBody_leave_run dryRun client channels (w : W) :
  let r := commandBody env Leave dryRun client channels w in
  LeaveRun dryRun (selector Leave channels) (traceOf r) (resultOf r).
Proof. apply leaveBody_run. Qed.

(** A dry run of a body makes no mutating call. *)
Lemma dry_body_calls (mode : RunMode) (client : Client)
    (channels : list Channel) (w : W) :
  mutatingCalls (traceOf (commandBody env mode true client channels w)) = [].
Proof.
  destruct mode.
  - pose proof (commandBody_join_run true client channels w) as Hrun.
    cbn zeta in Hrun. destruct Hrun; try done.
    filter_trace. done.
  - pose proof (commandBody_leave_run true client channels w) as Hrun.
    cbn zeta in Hrun. destruct Hrun; try done.
    filter_trace. done.
Qed.

(** The mutating calls of a live join run that returns no error. *)
Lemma live_join_calls (client : Client) (channels : list Channel) (w : W) :
  let r := commandBody env Join false client channels w in
  let sel := selector Join channels in
  resultOf r = None →
  ∃ now : Z,
    mutatingCalls (traceOf r) =
    ((λ n, ChannelJoined n None) <$> orderedNames sel)
    ++ ((λ n, ReadMarkSet (mapIndex (idByName sel) n) (pretty now) None)
          <$> orderedNames sel).
Proof.
  cbn zeta.
  pose proof (commandBody_join_run false client channels w) as Hrun.
  cbn zeta in Hrun.
  destruct Hrun as [Hnil | | | now marked failed Hne _ Hstop]; try done.
  - intros _. exists 0%Z. rewrite Hnil. done.
  - destruct failed as [[? ?]|]; [done |]. cbn in Hstop. subst marked.
    intros _. exists now. filter_trace. unfold callsOf, markEvent.
    by rewrite !app_nil_r.
Qed.

(** The mutating calls of a live leave run that returns no error. *)
Lemma live_leave_calls (client : Client) (channels : list Channel) (w : W) :
  let r := commandBody env Leave false client channels w in
  let sel := selector Leave channels in
  resultOf r = None →
  mutatingCalls (traceOf r) =
  (λ n, ChannelLeft (mapIndex (idByName sel) n) None) <$> orderedNames sel.
Proof.
  cbn zeta.
  pose proof (commandBody_leave_run false client channels w) as Hrun.
  cbn zeta in Hrun.
  destruct Hrun as [Hnil | | gone failed Hne _ Hstop]; try done.
  - intros _. rewrite Hnil. done.
  - destruct failed as [[? ?]|]; [done |]. cbn in Hstop. subst gone.
    intros _. filter_trace. unfold callsOf, leaveEvent.
    by rewrite !app_nil_r.
Qed.

(** The mutating calls of a whole command are those of its body, run on
    the channels the listing returned. *)
Lemma runCmd_calls body (slackKey : string) (fuel : nat) (w : W) :
  let r := runCmd env body slackKey fuel w in
  (mutatingCalls (traceOf r) = [] ∧ resultOf r ≠ Returned None)
  ∨ ∃ w1 w2 t1 listed,
      let client := slackNew slackKey in
      getAllChannels env fuel client w1 = (w2, t1, Some (listed, None))
      ∧ mutatingCalls (traceOf r)
        = mutatingCalls (traceOf (body client listed w2))
      ∧ resultOf r = Returned (resultOf (body client listed w2)).
Proof.
  cbn zeta. destruct (runCmd_cases env body slackKey fuel w)
    as [? | (w1 & w2 & t0 & t1 & listed & Hauth & Hlist & Hpre & ->)];
    [by left |].
  right. exists w1, w2, t1, listed. split_and!; [done | | done].
  io_simpl. unfold mutatingCalls in *.
  by rewrite app_assoc, List.filter_app, Hpre.
Qed.

(** C4, amended. With [dryRun] no join, leave or mark call is made, by the
    body of either command and by the whole command, authentication and
    listing included.  A live run that returns no error has made the calls
    of its mode once for each entry of [orderedNames], in ascending order of
    the names: the join calls and then the mark calls in a join run, the
    leave calls in a leave run; each mark and leave call carries the
    identifier the side table gives the name, which is the identifier of a
    listed, selected channel of that name.  [orderedNames] has one entry for
    each selected channel; when the listed channels have distinct names,
    each selected channel has its name there exactly once and its own
    identifier in the table, so that the calls are made once for each
    selected channel, on that channel.  The same holds of the whole
    commands, for the selection from the channels the listing returned. *)
Theorem C4_dry_run_and_live_calls (client : Client) (channels : list Channel)
    (w : W) :
  (∀ mode,
     mutatingCalls (traceOf (commandBody env mode true client channels w)) = [])
  ∧ (∀ slackKey fuel,
       mutatingCalls (traceOf (joinSuppportCmd env slackKey true fuel w)) = []
       ∧ mutatingCalls (traceOf (leaveSuppportCmd env slackKey true fuel w))
         = [])
  ∧ (let r := commandBody env Join false client channels w in
     let sel := selector Join channels in
     resultOf r = None →
     Sorted String.le (orderedNames sel)
     ∧ ∃ now : Z,
         mutatingCalls (traceOf r) =
         ((λ n, ChannelJoined n None) <$> orderedNames sel)
         ++ ((λ n, ReadMarkSet (mapIndex (idByName sel) n) (pretty now) None)
               <$> orderedNames sel))
  ∧ (let r := commandBody env Leave false client channels w in
     let sel := selector Leave channels in
     resultOf r = None →
     Sorted String.le (orderedNames sel)
     ∧ mutatingCalls (traceOf r) =
       (λ n, ChannelLeft (mapIndex (idByName sel) n) None)
         <$> orderedNames sel)
  ∧ (∀ mode,
       let sel := selector mode channels in
       Sorted String.le (orderedNames sel)
       ∧ orderedNames sel ≡ₚ Name <$> List.filter (wanted mode) channels
       ∧ ∀ n, n ∈ orderedNames sel →
              ∃ c, c ∈ channels ∧ wanted mode c = true ∧ Name c = n
                   ∧ mapIndex (idByName sel) n = ID c)
  ∧ (NoDup (Name <$> channels) →
     ∀ mode,
       let sel := selector mode channels in
       NoDup (orderedNames sel)
       ∧ ∀ c, c ∈ channels → wanted mode c = true →
              Name c ∈ orderedNames sel
              ∧ mapIndex (idByName sel) (Name c) = ID c)
  ∧ (∀ slackKey fuel,
       let r := joinSuppportCmd env slackKey false fuel w in
       resultOf r = Returned None →
       ∃ w1 w2 t1 listed (now : Z),
         let sel := selector Join listed in
         getAllChannels env fuel (slackNew slackKey) w1
         = (w2, t1, Some (listed, None))
         ∧ Sorted String.le (orderedNames sel)
         ∧ mutatingCalls (traceOf r) =
           ((λ n, ChannelJoined n None) <$> orderedNames sel)
           ++ ((λ n, ReadMarkSet (mapIndex (idByName sel) n) (pretty now) None)
                 <$> orderedNames sel))
  ∧ (∀ slackKey fuel,
       let r := leaveSuppportCmd env slackKey false fuel w in
       resultOf r = Returned None →
       ∃ w1 w2 t1 listed,
         let sel := selector Leave listed in
         getAllChannels env fuel (slackNew slackKey) w1
         = (w2, t1, Some (listed, None))
         ∧ Sorted String.le (orderedNames sel)
         ∧ mutatingCalls (traceOf r) =
           (λ n, ChannelLeft (mapIndex (idByName sel) n) None)
             <$> orderedNames sel).
Proof.
  split_and!.
  - intros mode. apply dry_body_calls.
  - intros slackKey fuel. unfold joinSuppportCmd, leaveSuppportCmd. split.
    + destruct (runCmd_calls (joinSuppportCmd_body env true) slackKey fuel w)
        as [[? _] | (w1 & w2 & t1 & listed & _ & -> & _)]; [done |].
      apply (dry_body_calls Join).
    + destruct (runCmd_calls (leaveSuppportCmd_body env true) slackKey fuel w)
        as [[? _] | (w1 & w2 & t1 & listed & _ & -> & _)]; [done |].
      apply (dry_body_calls Leave).
  - cbn zeta. intros Hres.
    split; [apply (orderedNames_sorted_perm Join) |].
    by apply live_join_calls.
  - cbn zeta. intros Hres.
    split; [apply (orderedNames_sorted_perm Leave) |].
    by apply live_leave_calls.
  - cbn zeta. intros mode.
    destruct (orderedNames_sorted_perm mode channels) as [Hs Hp].
    split_and!; [done | done |]. apply mapIndex_selected.
  - cbn zeta. intros Hnd mode. by apply distinct_names_selection.
  - cbn zeta. intros slackKey fuel Hres. unfold joinSuppportCmd in *.
    destruct (runCmd_calls (joinSuppportCmd_body env false) slackKey fuel w)
      as [[_ ?] | (w1 & w2 & t1 & listed & Hlist & -> & Hbody)]; [done |].
    rewrite Hbody in Hres. injection Hres as Hres.
    destruct (live_join_calls (slackNew slackKey) listed w2 Hres)
      as [now Hcalls].
    exists w1, w2, t1, listed, now.
    split_and!; [done | apply (orderedNames_sorted_perm Join) | done].
  - cbn zeta. intros slackKey fuel Hres. unfold leaveSuppportCmd in *.
    destruct (runCmd_calls (leaveSuppportCmd_body env false) slackKey fuel w)
      as [[_ ?] | (w1 & w2 & t1 & listed & Hlist & -> & Hbody)]; [done |].
    rewrite Hbody in Hres. injection Hres as Hres.
    pose proof (live_leave_calls (slackNew slackKey) listed w2 Hres).
    exists w1, w2, t1, listed.
    split_and!; [done | apply (orderedNames_sorted_perm Leave) | done].
Qed.

(** C6. In either mode, when the selection is empty the command prints the
    separator and the nothing-to-do message, returns no error, makes no
    call and leaves the world as it found it. *)
Theorem C6_empty_selection (mode : RunMode) (dryRun : bool) (client : Client)
    (channels : list Channel) (w : W) :
  orderedNames (selector mode channels) = [] →
  commandBody env mode dryRun client channels w =
  (w, [Printed separator; Printed (nothingToDo mode)], None).
Proof.
  intros Hnil.
  pose proof (faithful_commandBody env mode dryRun client channels w) as Hw.
  assert (traceOf (commandBody env mode dryRun client channels w)
          = [Printed separator; Printed (nothingToDo mode)]
          ∧ resultOf (commandBody env mode dryRun client channels w) = None)
    as [Htr Hres].
  { destruct mode.
    - pose proof (commandBody_join_run dryRun client channels w) as Hrun.
      cbn zeta in Hrun. by destruct Hrun.
    - pose proof (commandBody_leave_run dryRun client channels w) as Hrun.
      cbn zeta in Hrun. by destruct Hrun. }
  rewrite Htr in Hw. cbn in Hw.
  destruct (commandBody env mode dryRun client channels w) as [[w' tr] res].
  unfold worldOf, traceOf, resultOf in *. cbn in *. by subst.
Qed.

(** C5, amended. A leave run with a non-empty selection that returns no
    error prints the advisory, header and unreachable channels, after the
    main action: after the plan in a dry run, after the leave calls for all
    the selected names in a live run; only prints follow it. *)
Theorem C5_advisory_after_action (dryRun : bool) (client : Client)
    (channels : list Channel) (w : W) :
  let sel := selector Leave channels in
  let r := commandBody env Leave dryRun client channels w in
  orderedNames sel ≠ [] → resultOf r = None →
  ∃ before after,
    traceOf r = before ++ advisory (unreachable sel) ++ after
    ∧ plan Leave (orderedNames sel) `prefix_of` before
    ∧ mutatingCalls before =
      (if dryRun then []
       else (λ n, ChannelLeft (mapIndex (idByName sel) n) None)
              <$> orderedNames sel)
    ∧ Forall (λ ev, isPrinted ev = true) after.
Proof.
  cbn zeta. intros Hne.
  pose proof (commandBody_leave_run dryRun client channels w) as Hrun.
  cbn zeta in Hrun.
  destruct Hrun as [Hnil | _ -> | gone failed _ -> Hstop]; [done | |].
  - intros _.
    exists (plan Leave (orderedNames (selector Leave channels))
            ++ [Printed separator]),
           [Printed (LF +:+ "Dry run only, no exits were performed." +:+ LF)].
    split_and!.
    + by rewrite <- app_assoc.
    + by eexists.
    + filter_trace. done.
    + by repeat constructor.
  - destruct failed as [[? ?]|]; [done |]. cbn in Hstop. subst gone.
    intros _.
    exists (plan Leave (orderedNames (selector Leave channels))
            ++ [Printed separator]
            ++ loopTrace (leaveEvent (idByName (selector Leave channels)))
                 leftLine (orderedNames (selector Leave channels)) None
            ++ [Printed separator]),
           finished.
    split_and!.
    + by rewrite <- !app_assoc.
    + by eexists.
    + filter_trace. unfold callsOf, leaveEvent. by rewrite !app_nil_r.
    + by repeat constructor.
Qed.

(** The error a command body returns is the error of the call it made
    last. *)
Lemma commandBody_ok_tail (mode : RunMode) (dryRun : bool) (client : Client)
    (channels : list Channel) (w : W) :
  let r := commandBody env mode dryRun client channels w in
  ∃ ok, Forall (λ ev, failure ev = None) ok
        ∧ (traceOf r = ok ∧ resultOf r = None
           ∨ ∃ ev e, traceOf r = ok ++ [ev] ∧ failure ev = Some e
                     ∧ resultOf r = Some e ∧ isMutating ev = true).
Proof.
  destruct mode.
  - apply (JoinRun_ok_tail dryRun (selector Join channels)), joinBody_run.
  - apply (LeaveRun_ok_tail dryRun (selector Leave channels)), leaveBody_run.
Qed.

(** C7. In a live run, a call that fails is a join, leave or mark call and
    the last event of the run: nothing is called or printed after it, every
    call before it succeeded, and the command returns its error.  The world
    at the end is the world these calls left: a join run makes no leave
    call and a leave run no join call, so nothing is undone. *)
Theorem C7_abort_on_first_failure (mode : RunMode) (client : Client)
    (channels : list Channel) (w : W) (pre post : list Event) (ev : Event)
    (e : error) :
  let r := commandBody env mode false client channels w in
  traceOf r = pre ++ ev :: post → failure ev = Some e →
  post = []
  ∧ resultOf r = Some e
  ∧ isMutating ev = true
  ∧ Forall (λ ev', failure ev' = None) pre
  ∧ worldOf r = replay env client (pre ++ [ev]) w
  ∧ match mode with
    | Join => ∀ channelID err, ChannelLeft channelID err ∉ traceOf r
    | Leave => ∀ name err, ChannelJoined name err ∉ traceOf r
    end.
Proof.
  cbn zeta. intros Htr Hev.
  destruct (commandBody_ok_tail mode false client channels w)
    as (ok & Hok & [[Hall _] | (ev' & e' & Hsplit & Hev' & Hres & Hmut)]).
  - exfalso. rewrite Hall in Htr. subst ok.
    apply Forall_app in Hok as [_ Hok]. apply Forall_cons in Hok as [Hok _].
    congruence.
  - rewrite Hsplit in Htr.
    destruct (failed_event_is_last ok [ev'] pre post ev e Hok)
      as (Hlast & -> & ->); [cbn; lia | done | done |].
    injection Hlast as ->. assert (e' = e) as -> by congruence.
    split_and!; try done.
    + by rewrite faithful_commandBody, Hsplit.
    + destruct mode.
      * intros channelID err Hin.
        pose proof (commandBody_join_run false client channels w) as Hrun.
        cbn zeta in Hrun.
        eapply (JoinRun_Forall (λ ev, ∀ i r, ev ≠ ChannelLeft i r)) in Hrun;
          try done.
        rewrite Forall_forall in Hrun. by eapply Hrun.
      * intros name err Hin.
        pose proof (commandBody_leave_run false client channels w) as Hrun.
        cbn zeta in Hrun.
        eapply (LeaveRun_Forall (λ ev, ∀ n r, ev ≠ ChannelJoined n r)) in Hrun;
          try done.
        rewrite Forall_forall in Hrun. by eapply Hrun.
Qed.

(** The events of a join run that reaches the marks, without the prints:
    the joins, the pause of five seconds, the clock, the marks. *)
Lemma effects_marked (sel : SelectionResult) (now : Z) (marked : list string)
    (failed : option (string * error)) :
  effects
    (plan Join (orderedNames sel)
     ++ loopTrace ChannelJoined joinedLine (orderedNames sel) None
     ++ settling now
     ++ loopTrace (markEvent (idByName sel) (pretty now)) markedLine
                  marked failed
     ++ (if failed is None then finished else []))
  = callsOf ChannelJoined (orderedNames sel) None
    ++ [Slept (5 * Second); ClockRead now]
    ++ callsOf (markEvent (idByName sel) (pretty now)) marked failed.
Proof. destruct failed as [[? ?]|]; filter_trace; done. Qed.


(** C10. A join run that reads the clock is live and reads it once, right
    after the pause that follows the joins; every mark call of the run
    carries that one time, printed in decimal, and the mark calls go through
    the names in the order the join calls did, which is the ascending order
    of the names; each mark call goes to the identifier of a listed,
    selected channel of its name. *)
Theorem C10_one_timestamp (dryRun : bool) (client : Client)
    (channels : list Channel) (w : W) (now : Z) :
  let sel := selector Join channels in
  let r := commandBody env Join dryRun client channels w in
  ClockRead now ∈ traceOf r →
  dryRun = false
  ∧ clockReads (traceOf r) = [now]
  ∧ (∀ channelID ts err,
       ReadMarkSet channelID ts err ∈ traceOf r → ts = pretty now)
  ∧ ∃ marked failed,
      stoppedAt (orderedNames sel) marked failed
      ∧ effects (traceOf r) =
        ((λ n, ChannelJoined n None) <$> orderedNames sel)
        ++ [Slept (5 * Second); ClockRead now]
        ++ callsOf (λ n, ReadMarkSet (mapIndex (idByName sel) n) (pretty now))
                   marked failed
      ∧ Sorted String.le (orderedNames sel)
      ∧ Sorted String.le
          (marked ++ match failed with Some (n, _) => [n] | None => [] end)
      ∧ ∀ n, n ∈ orderedNames sel →
             ∃ c, c ∈ channels ∧ joinWanted c = true ∧ Name c = n
                  ∧ mapIndex (idByName sel) n = ID c.
Proof.
  cbn zeta. intros Hin.
  pose proof (commandBody_join_run dryRun client channels w) as Hrun.
  cbn zeta in Hrun. apply JoinRun_clockReads in Hrun.
  apply elem_of_clockReads in Hin.
  destruct Hrun as [Hnone | (now' & marked & failed & -> & Hne & Hstop & Hres
                            & Hclock & Htr)].
  - rewrite Hnone in Hin. by apply elem_of_nil in Hin.
  - rewrite Hclock in Hin. apply list_elem_of_singleton in Hin as ->.
    split_and!; [done | done | |].
    + intros channelID ts err Hmark. rewrite Htr in Hmark.
      assert (Forall (λ ev, ∀ i t r, ev = ReadMarkSet i t r → t = pretty now')
        (plan Join (orderedNames (selector Join channels))
         ++ loopTrace ChannelJoined joinedLine
              (orderedNames (selector Join channels)) None
         ++ settling now'
         ++ loopTrace (markEvent (idByName (selector Join channels))
                                 (pretty now')) markedLine marked failed
         ++ (if failed is None then finished else []))) as Hall.
      { rewrite !Forall_app. split_and!.
        - by apply Forall_plan.
        - by apply Forall_loopTrace.
        - by repeat constructor.
        - apply Forall_loopTrace; unfold markEvent; intros; congruence.
        - destruct failed; by repeat constructor. }
      rewrite Forall_forall in Hall. by eapply Hall.
    + exists marked, failed.
      destruct (orderedNames_sorted_perm Join channels) as [Hsorted _].
      split_and!; [done | | done | | apply (mapIndex_selected Join)].
      * rewrite Htr, effects_marked. unfold callsOf at 1.
        by rewrite app_nil_r.
      * destruct failed as [[n e]|]; cbn in Hstop.
        -- destruct Hstop as [rest Hsplit].
           apply (Sorted_le_app_l _ rest).
           rewrite <- app_assoc. cbn [app]. rewrite <- Hsplit.
           exact Hsorted.
        -- subst marked. by rewrite app_nil_r.
Qed.

End Driver.


(** ** The commands on examples *)

Lemma C1_join_selection_witness :
  ∃ c, c ∈ scenarioD_channels ∧ Name c = "frame" ∧ IsMember c = false
       ∧ (HasPrefix "frame" "_" = true
          ∨ "frame" ∈ ["customersupport"; "frame"; "monitoring"; "sentry"]).
Proof.
  apply (C1_join_selection scenarioD_channels).
  apply list_elem_of_In. vm_compute. tauto.
Defined.

Lemma C2_leave_selection_witness :
  "_beta" ∈ unreachable (selector Leave leaver_channels)
  ∧ orderedNames (selector Leave leaver_channels) =
    orderedNames (selector Leave [mkChannel "C1" "_acme" true false false]).
Proof.
  apply (proj2 (C2_leave_selection leaver_channels) []
               (mkChannel "C7" "_beta" true true false)
               [mkChannel "C1" "_acme" true false false]); reflexivity.
Defined.

Lemma C4_dry_run_and_live_calls_witness :
  let r := commandBody (scriptedEnv quietScript) Join false (slackNew "token")
             scenarioD_channels noMembership in
  resultOf r = None
  ∧ NoDup (Name <$> scenarioD_channels)
  ∧ (∃ now : Z,
       mutatingCalls (traceOf r) =
       [ChannelJoined "_acme" None; ChannelJoined "frame" None;
        ReadMarkSet "C1" (pretty now) None; ReadMarkSet "C2" (pretty now) None])
  ∧ NoDup (orderedNames (selector Join scenarioD_channels)).
Proof.
  cbn zeta.
  assert (NoDup (Name <$> scenarioD_channels)) as Hnd.
  { vm_compute. repeat constructor; rewrite ?elem_of_cons, ?elem_of_nil;
      intuition discriminate. }
  split_and!; [vm_compute; reflexivity | exact Hnd | |].
  - destruct (proj1 (proj2 (proj2 (C4_dry_run_and_live_calls
                (scriptedEnv quietScript) (slackNew "token") scenarioD_channels
                noMembership))))
      as [_ [now Hcalls]]; [vm_compute; reflexivity |].
    exists now. rewrite Hcalls.
    assert (orderedNames (selector Join scenarioD_channels)
            = ["_acme"; "frame"]) as -> by (vm_compute; reflexivity).
    cbn [fmap list_fmap app]. repeat f_equal; vm_compute; reflexivity.
  - apply (proj1 (proj2 (proj2 (proj2 (proj2 (proj2
             (C4_dry_run_and_live_calls (scriptedEnv quietScript)
                (slackNew "token") scenarioD_channels noMembership))))))
             Hnd Join).
Defined.

(** C4, as stated, fails: of two selected channels of one name the live run
    acts twice on the one listed last and never on the other, the side table
    holding one identifier for the name.  The run returns no error. *)
Lemma C4_shared_name_counterexample :
  let leaving := [mkChannel "C1" "_acme" true false false;
                  mkChannel "C2" "_acme" true false false] in
  let joining := [mkChannel "C1" "_acme" false false false;
                  mkChannel "C2" "_acme" false false false] in
  let left := commandBody (scriptedEnv quietScript) Leave false
                          (slackNew "token") leaving noMembership in
  let joined := commandBody (scriptedEnv quietScript) Join false
                            (slackNew "token") joining noMembership in
  Forall (λ c, leaveWanted c = true) leaving
  ∧ resultOf left = None
  ∧ mutatingCalls (traceOf left)
    = [ChannelLeft "C2" None; ChannelLeft "C2" None]
  ∧ (∀ err, ChannelLeft "C1" err ∉ traceOf left)
  ∧ Forall (λ c, joinWanted c = true) joining
  ∧ resultOf joined = None
  ∧ mutatingCalls (traceOf joined)
    = [ChannelJoined "_acme" None; ChannelJoined "_acme" None;
       ReadMarkSet "C2" "1700000000" None; ReadMarkSet "C2" "1700000000" None].
Proof.
  cbn zeta. split_and!; try (vm_compute; reflexivity).
  - by repeat constructor.
  - intros err. rewrite list_elem_of_In. vm_compute. intuition discriminate.
  - by repeat constructor.
Qed.

(** C5, as stated, fails: a member of one externally shared customer
    channel and of nothing else to leave is told there is nothing to leave,
    in a dry run and in a live one, and the advisory is not printed. *)
Lemma C5_empty_selection_counterexample :
  let channels := [mkChannel "C1" "_acme" true true false] in
  let sel := selector Leave channels in
  let dry := commandBody (scriptedEnv quietScript) Leave true
                         (slackNew "token") channels noMembership in
  let live := commandBody (scriptedEnv quietScript) Leave false
                          (slackNew "token") channels noMembership in
  orderedNames sel = [] ∧ unreachable sel = ["_acme"]
  ∧ traceOf dry = [Printed separator; Printed (nothingToDo Leave)]
  ∧ traceOf live = [Printed separator; Printed (nothingToDo Leave)]
  ∧ (Printed ("_acme" +:+ LF) ∉ traceOf dry)
  ∧ (Printed ("_acme" +:+ LF) ∉ traceOf live).
Proof.
  cbn zeta.
  assert (traceOf (commandBody (scriptedEnv quietScript) Leave true
            (slackNew "token") [mkChannel "C1" "_acme" true true false]
            noMembership)
          = [Printed separator; Printed (nothingToDo Leave)]) as Hdry
    by (vm_compute; reflexivity).
  assert (traceOf (commandBody (scriptedEnv quietScript) Leave false
            (slackNew "token") [mkChannel "C1" "_acme" true true false]
            noMembership)
          = [Printed separator; Printed (nothingToDo Leave)]) as Hlive
    by (vm_compute; reflexivity).
  rewrite Hdry, Hlive. split_and!; try (vm_compute; reflexivity).
  - rewrite !elem_of_cons, elem_of_nil. vm_compute. intuition discriminate.
  - rewrite !elem_of_cons, elem_of_nil. vm_compute. intuition discriminate.
Qed.

(** The advisory is not printed either when a leave call fails. *)
Example advisory_not_printed_on_failure :
  let script := mkScript (λ _, ([], "", None)) (λ _, None)
                         (λ _, Some "cant_leave") (λ _, None) 0 in
  let r := commandBody (scriptedEnv script) Leave false (slackNew "token")
                       leaver_channels noMembership in
  resultOf r = Some "cant_leave"
  ∧ traceOf r = plan Leave ["_acme"]
                ++ [Printed separator; ChannelLeft "C1" (Some "cant_leave")].
Proof. vm_compute. done. Qed.

Lemma C5_advisory_after_action_witness :
  let sel := selector Leave leaver_channels in
  let r := commandBody (scriptedEnv quietScript) Leave false (slackNew "token")
                       leaver_channels noMembership in
  orderedNames sel = ["_acme"] ∧ unreachable sel = ["_beta"]
  ∧ ∃ before after,
      traceOf r = before ++ advisory (unreachable sel) ++ after
      ∧ plan Leave (orderedNames sel) `prefix_of` before
      ∧ mutatingCalls before =
        (λ n, ChannelLeft (mapIndex (idByName sel) n) None)
          <$> orderedNames sel
      ∧ Forall (λ ev, isPrinted ev = true) after.
Proof.
  cbn zeta. split_and!; [vm_compute; reflexivity.. |].
  apply (C5_advisory_after_action (scriptedEnv quietScript) false
           (slackNew "token") leaver_channels noMembership).
  - vm_compute. discriminate.
  - vm_compute. reflexivity.
Defined.

(** Scenario C. *)
Lemma C6_empty_selection_witness :
  orderedNames (selector Join []) = []
  ∧ commandBody (scriptedEnv quietScript) Join false (slackNew "token") []
                noMembership
    = (noMembership,
       [Printed separator;
        Printed ("There are no support channels left for you to join."
                 +:+ LF)],
       None).
Proof.
  split; [reflexivity |].
  apply (C6_empty_selection (scriptedEnv quietScript) Join false
           (slackNew "token") [] noMembership).
  reflexivity.
Defined.

(** Scenario B, the run. *)
Example scenario_B_run :
  commandBody (scriptedEnv quietScript) Leave true (slackNew "token")
              [mkChannel "C1" "_acme" true true false] noMembership
  = (noMembership, [Printed separator; Printed (nothingToDo Leave)], None).
Proof. vm_compute. reflexivity. Qed.

(** Scenario D: both joins succeed, the second mark fails; the command
    returns that error and both channels are still joined. *)
Lemma C7_abort_on_first_failure_witness :
  let r := commandBody (scriptedEnv scenarioD_script) Join false
                       (slackNew "token") scenarioD_channels noMembership in
  resultOf r = Some "mark failed"
  ∧ worldOf r = mkMembership ["_acme"; "frame"] []
  ∧ ∀ channelID err, ChannelLeft channelID err ∉ traceOf r.
Proof.
  cbn zeta.
  destruct (C7_abort_on_first_failure (scriptedEnv scenarioD_script) Join
              (slackNew "token") scenarioD_channels noMembership
              (plan Join ["_acme"; "frame"]
               ++ loopTrace ChannelJoined joinedLine ["_acme"; "frame"] None
               ++ settling 1700000000
               ++ [ReadMarkSet "C1" "1700000000" None;
                   Printed (markedLine "_acme")])
              [] (ReadMarkSet "C2" "1700000000" (Some "mark failed"))
              "mark failed")
    as (_ & Hres & _ & _ & Hworld & Hundo).
  - vm_compute. reflexivity.
  - reflexivity.
  - split_and!; [exact Hres | | exact Hundo].
    rewrite Hworld. vm_compute. reflexivity.
Defined.


(** A listing that is not in order is joined and marked in the order of the
    names, each channel on its own identifier. *)
Example unsorted_listing_sorted_calls :
  effects (traceOf (commandBody (scriptedEnv quietScript) Join false
             (slackNew "token")
             [mkChannel "C2" "frame" false false false;
              mkChannel "C3" "Zeta" false false false;
              mkChannel "C1" "_acme" false false false] noMembership))
  = [ChannelJoined "_acme" None; ChannelJoined "frame" None;
     Slept 5000000000; ClockRead 1700000000;
     ReadMarkSet "C1" "1700000000" None; ReadMarkSet "C2" "1700000000" None].
Proof. vm_compute. reflexivity. Qed.

Lemma C9_listing_all_or_nothing_witness :
  getAllChannels (scriptedEnv pagedScript) 9 (slackNew "token") noMembership
  = getAllChannels (scriptedEnv pagedScript) 2 (slackNew "token") noMembership
  ∧ resultOf (getAllChannels (scriptedEnv pagedScript) 2 (slackNew "token")
                noMembership)
    = Some ([mkChannel "C1" "_acme" false false false;
             mkChannel "C2" "frame" false false false], None)
  ∧ resultOf (getAllChannels (scriptedEnv brokenScript) 2 (slackNew "token")
                noMembership)
    = Some ([], Some "ratelimited").
Proof.
  split_and!; [|vm_compute; reflexivity..].
  apply (proj1 (proj2 (C9_listing_all_or_nothing (scriptedEnv pagedScript) 2
                         (slackNew "token") noMembership)) 9).
  - lia.
  - vm_compute. discriminate.
Defined.

Lemma C10_one_timestamp_witness :
  let r := commandBody (scriptedEnv quietScript) Join false (slackNew "token")
                       scenarioD_channels noMembership in
  clockReads (traceOf r) = [1700000000%Z]
  ∧ ∀ channelID ts err,
      ReadMarkSet channelID ts err ∈ traceOf r → ts = "1700000000".
Proof.
  cbn zeta.
  destruct (C10_one_timestamp (scriptedEnv quietScript) false
              (slackNew "token") scenarioD_channels noMembership 1700000000)
    as (_ & Hclock & Hmarks & _).
  - apply list_elem_of_In. vm_compute. tauto.
  - split; [exact Hclock |]. intros channelID ts err Hin.
    rewrite (Hmarks channelID ts err Hin). vm_compute. reflexivity.
Defined.

(** ** Further properties of the selection *)

Lemma bfilter_bfilter {A} (f g : A → bool) (l : list A) :
  List.filter f (List.filter g l) = List.filter (λ x, g x && f x) l.
Proof.
  induction l as [|x l IH]; cbn; [done |].
  destruct (g x); cbn; [destruct (f x) |]; by rewrite IH.
Qed.

Lemma bfilter_ext {A} (f g : A → bool) (l : list A) :
  (∀ x, f x = g x) → List.filter f l = List.filter g l.
Proof. intros E. induction l as [|x l IH]; cbn; [done |]. by rewrite E, IH. Qed.

(** Both selections read off the wanted channels of the listing. *)
Lemma selector_wanted (mode : RunMode) (channels : list Channel) :
  orderedNames (selector mode channels)
  = sortStrings (Name <$> List.filter (wanted mode) channels)
  ∧ idByName (selector mode channels)
    = fold_left (λ m c, <[Name c := ID c]> m)
                (List.filter (wanted mode) channels) ∅.
Proof.
  destruct mode; cbn [selector orderedNames idByName wanted].
  - by rewrite joinCollect_names, joinCollect_ids.
  - by rewrite leaveCollect_names, leaveCollect_ids.
Qed.

(** Each listed channel that passes the test of the mode gives exactly one
    entry of [orderedNames], also a default channel, which goes through the
    inner loop of lines 116-122: the names selected are the names of these
    channels, each as many times as there are such channels of that name. *)
Theorem selection_one_entry_per_channel (mode : RunMode)
    (channels : list Channel) :
  orderedNames (selector mode channels)
  ≡ₚ Name <$> List.filter (wanted mode) channels
  ∧ length (orderedNames (selector mode channels))
    = length (List.filter (wanted mode) channels)
  ∧ ∀ n, length (List.filter (String.eqb n)
                             (orderedNames (selector mode channels)))
         = length (List.filter (λ c, wanted mode c && String.eqb n (Name c))
                               channels).
Proof.
  destruct (selector_wanted mode channels) as [-> _].
  assert (sortStrings (Name <$> List.filter (wanted mode) channels)
          ≡ₚ Name <$> List.filter (wanted mode) channels) as Hperm
    by apply sortStrings_perm.
  split_and!.
  - done.
  - by rewrite Hperm, length_fmap.
  - intros n. rewrite (filter_Permutation _ _ _ Hperm).
    rewrite <- bfilter_bfilter.
    generalize (List.filter (wanted mode) channels). intros l.
    induction l as [|c l IH]; cbn; [done |].
    destruct (String.eqb n (Name c)); cbn; by rewrite IH.
Qed.

(** [unreachable] is not sorted: it lists the externally shared customer
    channels the user is a member of in the order of the listing, one entry
    for each. *)
Theorem unreachable_in_listing_order (channels : list Channel) :
  unreachable (selector Leave channels)
  = Name <$> List.filter leaveBlocked channels
  ∧ unreachable (selector Leave
      [mkChannel "C2" "_zulu" true true false;
       mkChannel "C1" "_alpha" true true false]) = ["_zulu"; "_alpha"].
Proof. split; [apply unreachable_leave | vm_compute; reflexivity]. Qed.

Lemma fold_insert_last (cs : list Channel) (m : gmap string string)
    (n : string) :
  fold_left (λ m c, <[Name c := ID c]> m) cs m !! n
  = match last (List.filter (λ c, String.eqb (Name c) n) cs) with
    | Some c => Some (ID c)
    | None => m !! n
    end.
Proof.
  revert m. induction cs as [|c cs IH]; intros m; [done |].
  cbn [fold_left List.filter]. rewrite IH.
  destruct (String.eqb_spec (Name c) n) as [<- | Hne].
  - destruct (List.filter (λ c0, String.eqb (Name c0) (Name c)) cs) as [|c' l]
      eqn:Hl.
    + cbn [last]. apply lookup_insert_eq.
    + rewrite last_cons_cons.
      destruct (last (c' :: l)) eqn:E; [done |]. by apply last_None in E.
  - destruct (last _); [done |]. by apply lookup_insert_ne.
Qed.

(** The side table holds exactly the selected names, and when several
    selected channels have one name the identifier kept is that of the one
    listed last (the map entry is overwritten at lines 111, 119, 207). *)
Theorem idByName_last_listed_wins (mode : RunMode) (channels : list Channel)
    (n : string) :
  idByName (selector mode channels) !! n
  = ID <$> last (List.filter (λ c, wanted mode c && String.eqb (Name c) n)
                             channels)
  ∧ (is_Some (idByName (selector mode channels) !! n)
     ↔ n ∈ orderedNames (selector mode channels)).
Proof.
  destruct (selector_wanted mode channels) as [Hnames ->].
  assert (fold_left (λ m c, <[Name c := ID c]> m)
            (List.filter (wanted mode) channels) (∅ : gmap string string) !! n
          = ID <$> last (List.filter
                           (λ c, wanted mode c && String.eqb (Name c) n)
                           channels)) as Hlookup.
  { rewrite fold_insert_last, bfilter_bfilter, lookup_empty.
    by destruct (last _). }
  split; [done |]. rewrite Hlookup, Hnames, elem_of_sortStrings.
  rewrite list_elem_of_fmap, fmap_is_Some. split.
  - intros [c Hc]. apply last_Some_elem_of, elem_of_bfilter in Hc as [Hc Hw].
    apply andb_true_iff in Hw as [Hw Hn]. apply String.eqb_eq in Hn.
    exists c. by rewrite elem_of_bfilter.
  - intros (c & -> & Hc). apply elem_of_bfilter in Hc as [Hc Hw].
    destruct (last (List.filter
                (λ c0, wanted mode c0 && String.eqb (Name c0) (Name c))
                channels)) as [c'|] eqn:Hlast; [by eexists |].
    apply last_None in Hlast.
    assert (c ∈ List.filter
              (λ c0, wanted mode c0 && String.eqb (Name c0) (Name c))
              channels) as Hin
      by (apply elem_of_bfilter; by rewrite Hw, String.eqb_refl).
    rewrite Hlast in Hin. by apply elem_of_nil in Hin.
Qed.

Lemma selector_join_eq (l l' : list Channel) :
  List.filter joinWanted l = List.filter joinWanted l' →
  selector Join l = selector Join l'.
Proof.
  intros Hw. cbn [selector]. unfold joinCollect.
  rewrite !fold_joinStep. cbn [fst snd]. by rewrite Hw.
Qed.

Lemma selector_leave_eq (l l' : list Channel) :
  List.filter leaveWanted l = List.filter leaveWanted l' →
  List.filter leaveBlocked l = List.filter leaveBlocked l' →
  selector Leave l = selector Leave l'.
Proof.
  intros Hw Hb. cbn [selector]. unfold leaveCollect.
  rewrite !fold_leaveStep. cbn [la_names la_cannotLeave la_ids].
  by rewrite Hw, Hb.
Qed.

Lemma bfilter_screen {A} (f g : A → bool) (l : list A) :
  (∀ x, f x = true → g x = true) →
  List.filter f l = List.filter f (List.filter g l).
Proof.
  intros Hfg. rewrite bfilter_bfilter. apply bfilter_ext.
  intros x. specialize (Hfg x). destruct (f x), (g x); try done.
  by specialize (Hfg eq_refl).
Qed.

Lemma bfilter_none {A} (f : A → bool) (l : list A) :
  Forall (λ x, f x = false) l → List.filter f l = [].
Proof. induction 1 as [|x l Hx _ IH]; cbn; [done |]. by rewrite Hx. Qed.

(** The join command does not look at the channels the user is a member of,
    nor the leave command at the others: taking them out of the listing
    changes nothing of the selection, names, identifiers or unreachable
    list.  So a user who is in every listed channel has nothing to join, and
    one who is in none has nothing to leave. *)
Theorem membership_screens_the_listing (channels : list Channel) :
  selector Join channels
  = selector Join (List.filter (λ c, negb (IsMember c)) channels)
  ∧ selector Leave channels = selector Leave (List.filter IsMember channels)
  ∧ (Forall (λ c, IsMember c = true) channels →
     orderedNames (selector Join channels) = [])
  ∧ (Forall (λ c, IsMember c = false) channels →
     orderedNames (selector Leave channels) = []
     ∧ unreachable (selector Leave channels) = []).
Proof.
  split_and!.
  - apply selector_join_eq, bfilter_screen.
    intros c. unfold joinWanted. by destruct (IsMember c).
  - apply selector_leave_eq; apply bfilter_screen; intros c.
    + unfold leaveWanted. by destruct (IsMember c).
    + unfold leaveBlocked. by destruct (IsMember c).
  - intros Hall. rewrite orderedNames_join, bfilter_none; [done |].
    eapply Forall_impl; [exact Hall |]. intros c Hc. unfold joinWanted.
    by rewrite Hc.
  - intros Hall. rewrite orderedNames_leave, unreachable_leave.
    rewrite !bfilter_none; [done | |].
    + eapply Forall_impl; [exact Hall |]. intros c Hc. unfold leaveBlocked.
      by rewrite Hc.
    + eapply Forall_impl; [exact Hall |]. intros c Hc. unfold leaveWanted.
      by rewrite Hc.
Qed.

Lemma membership_screens_the_listing_witness :
  orderedNames (selector Join [mkChannel "C1" "_acme" true false false;
                               mkChannel "C2" "frame" true false false]) = [].
Proof.
  apply (proj1 (proj2 (proj2 (membership_screens_the_listing
           [mkChannel "C1" "_acme" true false false;
            mkChannel "C2" "frame" true false false])))).
  by repeat constructor.
Defined.

(** The leave command never gives back a default support channel: none of
    customersupport, frame, monitoring and sentry, which the join command
    joins, is ever selected for leaving or reported as unreachable,
    whatever the listing. *)
Theorem leave_keeps_default_channels (channels : list Channel) :
  Forall (λ n, (n ∉ orderedNames (selector Leave channels))
               ∧ (n ∉ unreachable (selector Leave channels)))
         defaultSupportChannels
  ∧ ∀ c, c ∈ channels → IsMember c = false →
         Name c ∈ defaultSupportChannels →
         Name c ∈ orderedNames (selector Join channels).
Proof.
  split.
  - assert (∀ n, n ∈ defaultSupportChannels → HasPrefix n "_" = false)
      as Hdef.
    { intros n. unfold defaultSupportChannels.
      rewrite !elem_of_cons, elem_of_nil.
      intros [-> | [-> | [-> | [-> | []]]]]; reflexivity. }
    apply Forall_forall. intros n Hn. specialize (Hdef n Hn). split.
    + intros Hin.
      apply elem_of_orderedNames_leave in Hin as (c & _ & <- & Hw).
      unfold leaveWanted in Hw. rewrite Hdef in Hw.
      by rewrite andb_false_r in Hw.
    + rewrite unreachable_leave. intros Hin.
      apply list_elem_of_fmap in Hin as (c & -> & Hc).
      apply elem_of_bfilter in Hc as [_ Hb].
      unfold leaveBlocked in Hb. rewrite Hdef in Hb.
      by rewrite andb_false_r in Hb.
  - intros c Hc Hm Hd. apply elem_of_orderedNames_join. exists c.
    split_and!; [done.. |]. unfold joinWanted. rewrite Hm.
    by rewrite (bool_decide_eq_true_2 _ Hd), orb_true_r.
Qed.

Lemma fold_insert_union (cs : list Channel) (m : gmap string string) :
  fold_left (λ m c, <[Name c := ID c]> m) cs m
  = fold_left (λ m c, <[Name c := ID c]> m) cs ∅ ∪ m.
Proof.
  revert m. induction cs as [|c cs IH]; intros m; cbn [fold_left].
  - by rewrite (left_id_L ∅ (∪)).
  - rewrite IH, (IH (<[Name c := ID c]> ∅)).
    rewrite <- (assoc_L (∪)). f_equal.
    by rewrite <- insert_union_l, (left_id_L ∅ (∪)).
Qed.

(** The selection of a listing made of two parts, as the pages of the
    listing are, is put together from the selections of the parts: the names
    are those of both, sorted; the unreachable channels follow one another;
    and an identifier of the second part replaces one of the first for the
    same name. *)
Theorem selection_of_appended_pages (mode : RunMode)
    (front back : list Channel) :
  let whole := selector mode (front ++ back) in
  orderedNames whole
  = sortStrings (orderedNames (selector mode front)
                 ++ orderedNames (selector mode back))
  ∧ unreachable whole
    = unreachable (selector mode front) ++ unreachable (selector mode back)
  ∧ idByName whole
    = idByName (selector mode back) ∪ idByName (selector mode front).
Proof.
  cbn zeta. split_and!.
  - destruct (selector_wanted mode (front ++ back)) as [-> _].
    destruct (selector_wanted mode front) as [-> _].
    destruct (selector_wanted mode back) as [-> _].
    apply sortStrings_proper.
    by rewrite List.filter_app, fmap_app, !sortStrings_perm.
  - destruct mode; [done |].
    by rewrite !unreachable_leave, List.filter_app, fmap_app.
  - destruct (selector_wanted mode (front ++ back)) as [_ ->].
    destruct (selector_wanted mode front) as [_ ->].
    destruct (selector_wanted mode back) as [_ ->].
    by rewrite List.filter_app, fold_left_app, fold_insert_union.
Qed.

(** ** Further properties of the commands *)

Lemma Forall_loopTrace_done {A} (P : Event → Prop)
    (call : A → option error → Event) (line : A → string) (xs done : list A)
    (failed : option (A * error)) :
  stoppedAt xs done failed →
  (∀ s, P (Printed s)) → (∀ x err, x ∈ xs → P (call x err)) →
  Forall P (loopTrace call line done failed).
Proof.
  intros Hstop Hp Hcall. unfold loopTrace. apply Forall_app. split.
  - assert (∀ x, x ∈ done → x ∈ xs) as Hsub.
    { intros x Hx. destruct failed as [[y e]|]; cbn in Hstop.
      - destruct Hstop as [rest ->]. apply elem_of_app. by left.
      - by subst. }
    clear Hstop. induction done as [|x done IH]; cbn; [constructor |].
    repeat constructor.
    + apply Hcall, Hsub. by left.
    + apply Hp.
    + apply IH. intros y Hy. apply Hsub. by right.
  - destruct failed as [[x e]|]; repeat constructor. cbn in Hstop.
    destruct Hstop as [rest ->]. apply Hcall.
    apply elem_of_app. right. by left.
Qed.

Lemma stoppedAt_all {A} (xs : list A) : stoppedAt xs xs None.
Proof. done. Qed.

Section MoreOfTheCommands.
Context {W : Type} (env : Env W).

Lemma replay_printed (client : Client) (tr : list Event) (w : W) :
  Forall (λ ev, isPrinted ev = true) tr → replay env client tr w = w.
Proof.
  induction 1 as [|ev tr Hev _ IH]; cbn; [done |].
  by destruct ev.
Qed.

(** A dry run of either command prints and does nothing else: it returns
    no error, leaves the world as it found it, and makes no call, pause or
    reading of the clock.  What it prints begins with the plan, the header
    and the selected names, with which the live run on the same listing
    begins too. *)
Theorem dry_run_only_prints (mode : RunMode) (client : Client)
    (channels : list Channel) (w : W) :
  let sel := selector mode channels in
  let dry := commandBody env mode true client channels w in
  let live := commandBody env mode false client channels w in
  resultOf dry = None
  ∧ worldOf dry = w
  ∧ Forall (λ ev, isPrinted ev = true) (traceOf dry)
  ∧ (orderedNames sel ≠ [] →
     plan mode (orderedNames sel) `prefix_of` traceOf dry
     ∧ plan mode (orderedNames sel) `prefix_of` traceOf live).
Proof.
  cbn zeta.
  assert (resultOf (commandBody env mode true client channels w) = None
          ∧ Forall (λ ev, isPrinted ev = true)
                   (traceOf (commandBody env mode true client channels w)))
    as [Hres Hprints].
  { destruct mode.
    - pose proof (commandBody_join_run env true client channels w) as Hrun.
      cbn zeta in Hrun. destruct Hrun; try done.
      + split; [done |]. by repeat constructor.
      + split; [done |]. rewrite Forall_app. split.
        * by apply Forall_plan.
        * by repeat constructor.
    - pose proof (commandBody_leave_run env true client channels w) as Hrun.
      cbn zeta in Hrun. destruct Hrun; try done.
      + split; [done |]. by repeat constructor.
      + split; [done |]. rewrite !Forall_app. split_and!.
        * by apply Forall_plan.
        * by repeat constructor.
        * by apply Forall_advisory.
        * by repeat constructor. }
  split_and!; [done | | done |].
  - rewrite faithful_commandBody. by apply replay_printed.
  - intros Hne. destruct mode.
    + split.
      * pose proof (commandBody_join_run env true client channels w) as Hrun.
        cbn zeta in Hrun. destruct Hrun; try done. by eexists.
      * pose proof (commandBody_join_run env false client channels w) as Hrun.
        cbn zeta in Hrun. destruct Hrun; try done; by eexists.
    + split.
      * pose proof (commandBody_leave_run env true client channels w) as Hrun.
        cbn zeta in Hrun. destruct Hrun; try done. by eexists.
      * pose proof (commandBody_leave_run env false client channels w) as Hrun.
        cbn zeta in Hrun. destruct Hrun; try done; by eexists.
Qed.

(** No call goes outside the selection.  A join call names a listed channel
    the user is not a member of, customer or default; a leave call and a
    mark call carry the identifier of a listed channel selected by the
    command; a join run makes no leave call and a leave run neither join nor
    mark call; and the body of a command neither authenticates nor lists. *)
Theorem calls_stay_within_selection (mode : RunMode) (dryRun : bool)
    (client : Client) (channels : list Channel) (w : W) :
  Forall (λ ev,
            match ev with
            | ChannelJoined name _ =>
                mode = Join
                ∧ ∃ c, c ∈ channels ∧ joinWanted c = true ∧ Name c = name
            | ReadMarkSet channelID _ _ =>
                mode = Join
                ∧ ∃ c, c ∈ channels ∧ joinWanted c = true ∧ ID c = channelID
            | ChannelLeft channelID _ =>
                mode = Leave
                ∧ ∃ c, c ∈ channels ∧ leaveWanted c = true ∧ ID c = channelID
            | AuthTested _ | ConversationsFetched _ _ _ _ => False
            | Printed _ | Slept _ | ClockRead _ => True
            end)
         (traceOf (commandBody env mode dryRun client channels w)).
Proof.
  assert (∀ m n, n ∈ orderedNames (selector m channels) →
            ∃ c, c ∈ channels ∧ wanted m c = true ∧ Name c = n
                 ∧ mapIndex (idByName (selector m channels)) n = ID c)
    as Hsel.
  { intros m n Hn.
    destruct (idByName_selected m channels n Hn) as (c & ? & ? & ? & Hid).
    exists c. unfold mapIndex. by rewrite Hid. }
  destruct mode.
  - pose proof (commandBody_join_run env dryRun client channels w) as Hrun.
    cbn zeta in Hrun.
    destruct Hrun as [| |gone name rest e Hne Hdry Hsplit
                      |now marked failed Hne Hdry Hstop].
    + by repeat constructor.
    + rewrite Forall_app. split; [by apply Forall_plan |].
      by repeat constructor.
    + rewrite Forall_app. split; [by apply Forall_plan |].
      apply (Forall_loopTrace_done _ _ _
               (orderedNames (selector Join channels)));
        [by exists rest | done |].
      intros n err Hn. destruct (Hsel Join n Hn) as (c & ? & ? & ? & _).
      split; [done |]. by exists c.
    + rewrite !Forall_app. split_and!.
      * by apply Forall_plan.
      * apply (Forall_loopTrace_done _ _ _
                 (orderedNames (selector Join channels)));
          [apply stoppedAt_all | done |].
        intros n err Hn. destruct (Hsel Join n Hn) as (c & ? & ? & ? & _).
        split; [done |]. by exists c.
      * by repeat constructor.
      * apply (Forall_loopTrace_done _ _ _
                 (orderedNames (selector Join channels))); [done.. |].
        intros n err Hn. destruct (Hsel Join n Hn) as (c & ? & ? & ? & Hid).
        unfold markEvent. split; [done |]. by exists c.
      * destruct failed; by repeat constructor.
  - pose proof (commandBody_leave_run env dryRun client channels w) as Hrun.
    cbn zeta in Hrun.
    destruct Hrun as [| |gone failed Hne Hdry Hstop].
    + by repeat constructor.
    + rewrite !Forall_app. split_and!.
      * by apply Forall_plan.
      * by repeat constructor.
      * by apply Forall_advisory.
      * by repeat constructor.
    + rewrite !Forall_app. split_and!.
      * by apply Forall_plan.
      * by repeat constructor.
      * apply (Forall_loopTrace_done _ _ _
                 (orderedNames (selector Leave channels))); [done.. |].
        intros n err Hn. destruct (Hsel Leave n Hn) as (c & ? & ? & ? & Hid).
        unfold leaveEvent. split; [done |]. by exists c.
      * destruct failed; rewrite ?Forall_app; repeat split;
          try (by apply Forall_advisory); by repeat constructor.
Qed.

(** The line [Done!] ends a run exactly when the run was live, had channels
    to act on, and every call succeeded: a dry run, an empty selection and
    a failed call all end on something else. *)
Theorem done_only_after_success (mode : RunMode) (dryRun : bool)
    (client : Client) (channels : list Channel) (w : W) :
  let r := commandBody env mode dryRun client channels w in
  last (traceOf r) = Some (Printed ("Done!" +:+ LF +:+ LF))
  ↔ dryRun = false ∧ orderedNames (selector mode channels) ≠ []
    ∧ resultOf r = None.
Proof.
  cbn zeta.
  assert (∀ l : list Event, last (l ++ finished)
                            = Some (Printed ("Done!" +:+ LF +:+ LF))) as Hfin.
  { intros l. unfold finished. by rewrite last_app. }
  destruct mode.
  - pose proof (commandBody_join_run env dryRun client channels w) as Hrun.
    cbn zeta in Hrun.
    destruct Hrun as [Hnil| Hne -> |gone name rest e Hne -> Hsplit
                      |now marked failed Hne -> Hstop].
    + split; [by intros [=] | by intros (_ & ? & _)].
    + rewrite last_app. cbn [last].
      split; [by intros [=] | by intros ([=] & _)].
    + rewrite loopTrace_split, !(assoc_L (++)), last_snoc.
      split; [by intros [=] | by intros (_ & _ & [=])].
    + destruct failed as [[name e]|].
      * rewrite app_nil_r, (loopTrace_split (markEvent _ _)),
          !(assoc_L (++)), last_snoc.
        split; [by intros [=] | by intros (_ & _ & [=])].
      * rewrite !(assoc_L (++)), Hfin. done.
  - pose proof (commandBody_leave_run env dryRun client channels w) as Hrun.
    cbn zeta in Hrun.
    destruct Hrun as [Hnil| Hne -> |gone failed Hne -> Hstop].
    + split; [by intros [=] | by intros (_ & ? & _)].
    + rewrite !(assoc_L (++)), last_snoc.
      split; [by intros [=] | by intros ([=] & _)].
    + destruct failed as [[name e]|].
      * rewrite app_nil_r, (loopTrace_split (leaveEvent _)),
          !(assoc_L (++)), last_snoc.
        split; [by intros [=] | by intros (_ & _ & [=])].
      * rewrite !(assoc_L (++)), Hfin. done.
Qed.

End MoreOfTheCommands.

(** ** Authentication, the whole commands and their wrapper *)

Section WholeCommands.
Context {W : Type} (env : Env W).

(** The line [checkAuth] prints on success (line 58). *)
Lemma checkAuth_run (slackKey : string) (w : W) :
  checkAuth env slackKey w =
  if bool_decide (slackKey = "")
  then (w, [], (None, Some "no slack auth key provided"))
  else
    let answer := AuthTestContext env (slackNew slackKey) w in
    match answer.2.2 with
    | Some e => (answer.1, [AuthTested (Some e)], (None, Some e))
    | None =>
        (answer.1,
         [AuthTested None;
          Printed ("Logged in as: " +:+ User answer.2.1 +:+ LF +:+ TAB
                   +:+ "Team: " +:+ Team answer.2.1 +:+ LF)],
         (Some (slackNew slackKey), None))
    end.
Proof.
  unfold checkAuth. rewrite length_eqb_0_string.
  case_bool_decide; [done |]. rewrite bind_run. unfold authTest.
  destruct (AuthTestContext env (slackNew slackKey) w) as [w1 [resp err]].
  destruct err as [e|]; io_simpl; [done |]. rewrite bind_run. by io_simpl.
Qed.

(** [checkAuth] returns a client exactly when it returns no error, and the
    client holds the key.  Without a key it fails at once, with its own
    message and without calling Slack; with a key its trace is the one call
    to Slack, followed when the call succeeded by the one line
    [Logged in as: <user>], [Team: <team>] with the user and team of the
    answer, and by nothing when it failed, in which case the error of the
    call is returned. *)
Theorem checkAuth_client_or_error (slackKey : string) (w : W) :
  let r := checkAuth env slackKey w in
  let answer := AuthTestContext env (slackNew slackKey) w in
  ((resultOf r).1 = None ↔ (resultOf r).2 ≠ None)
  ∧ ((resultOf r).2 = None ↔ (resultOf r).1 = Some (slackNew slackKey))
  ∧ (slackKey = "" →
     r = (w, [], (None, Some "no slack auth key provided")))
  ∧ (slackKey ≠ "" →
     worldOf r = answer.1 ∧ (resultOf r).2 = answer.2.2
     ∧ effects (traceOf r) = [AuthTested answer.2.2]
     ∧ (isPrinted <$> last (traceOf r) = Some true ↔ answer.2.2 = None)
     ∧ traceOf r =
       AuthTested answer.2.2
       :: match answer.2.2 with
          | Some _ => []
          | None =>
              [Printed ("Logged in as: " +:+ User answer.2.1 +:+ LF +:+ TAB
                        +:+ "Team: " +:+ Team answer.2.1 +:+ LF)]
          end).
Proof.
  cbn zeta. rewrite checkAuth_run. case_bool_decide as Hkey.
  - split_and!; try done.
  - cbn zeta.
    destruct (AuthTestContext env (slackNew slackKey) w) as [w1 [resp err]].
    destruct err as [e|]; cbn; split_and!; try done;
      try (split; intros; done); intros _; split_and!; try done.
Qed.

Lemma failure_fetchTrace (cursor : string)
    (pages : list (list Channel * string)) :
  Forall (λ ev, failure ev = None) (fetchTrace cursor pages).
Proof.
  revert cursor. induction pages as [|[page next] pages IH]; intros cursor;
    cbn; [constructor |]. constructor; [done | apply IH].
Qed.

(** The events of a listing succeed, except the last one when the listing
    returns an error. *)
Lemma getAllChannels_ok_tail (fuel : nat) (client : Client) (w : W) :
  let r := getAllChannels env fuel client w in
  ∃ ok, Forall (λ ev, failure ev = None) ok
        ∧ match resultOf r with
          | Some (_, Some e) =>
              ∃ ev, traceOf r = ok ++ [ev] ∧ failure ev = Some e
          | _ => traceOf r = ok
          end.
Proof.
  cbn zeta. unfold getAllChannels.
  destruct (getAllChannelsFrom_run env fuel client [] "" w)
    as (pages & _ & Hrun).
  pose proof (failure_fetchTrace "" pages) as Hok.
  destruct (resultOf (getAllChannelsFrom env fuel client [] "" w))
    as [[channels [e|]]|].
  - destruct Hrun as (page & next & _ & -> & _). eauto.
  - destruct Hrun as (page & _ & -> & _). eexists. split; [|done].
    apply Forall_app. split; [done |]. by repeat constructor.
  - destruct Hrun as [_ ->]. eauto.
Qed.

Lemma supportCmd_runCmd (mode : RunMode) (slackKey : string) (dryRun : bool)
    (fuel : nat) :
  supportCmd env mode slackKey dryRun fuel
  = runCmd env (commandBody env mode dryRun) slackKey fuel.
Proof. by destruct mode. Qed.

(** The shape of every run of a whole command. *)
Lemma supportCmd_ok_tail (mode : RunMode) (slackKey : string) (dryRun : bool)
    (fuel : nat) (w : W) :
  let r := supportCmd env mode slackKey dryRun fuel w in
  ∃ ok,
    Forall (λ ev, failure ev = None) ok
    ∧ ((traceOf r = ok
        ∧ (resultOf r = Returned None ∨ resultOf r = OutOfFuel
           ∨ (slackKey = "" ∧ ok = []
              ∧ resultOf r = Returned (Some "no slack auth key provided"))))
       ∨ ∃ ev e, traceOf r = ok ++ [ev] ∧ failure ev = Some e
                 ∧ resultOf r = Returned (Some e)).
Proof.
  cbn zeta. rewrite supportCmd_runCmd. unfold runCmd.
  rewrite bind_run, checkAuth_run. case_bool_decide as Hkey.
  { io_simpl. exists []. split; [constructor |]. left. split; [done |].
    right. right. done. }
  cbn zeta.
  destruct (AuthTestContext env (slackNew slackKey) w) as [w1 [resp err]].
  destruct err as [e|]; io_simpl.
  { exists []. split; [constructor |]. right.
    exists (AuthTested (Some e)), e. done. }
  set (login := Printed _).
  assert (failure login = None) as Hlogin by done. clearbody login.
  rewrite bind_run.
  destruct (getAllChannels_ok_tail fuel (slackNew slackKey) w1)
    as (ok1 & Hok1 & Hlist).
  cbn zeta in Hlist.
  destruct (getAllChannels env fuel (slackNew slackKey) w1)
    as [[w2 t1] listed].
  io_simpl in Hlist. io_simpl.
  destruct listed as [[channels err]|]; [destruct err as [e|] |]; io_simpl.
  - destruct Hlist as (ev & -> & Hev).
    exists (AuthTested None :: login :: ok1).
    split; [by repeat constructor |]. right.
    exists ev, e. split_and!; [|done..]. by rewrite app_nil_r.
  - subst t1. rewrite bind_run. io_simpl.
    destruct (commandBody_ok_tail env mode dryRun (slackNew slackKey)
                channels w2)
      as (ok2 & Hok2 & [[Htr Hres] | (ev & e & Htr & Hev & Hres & _)]);
      rewrite Htr, Hres, app_nil_r.
    + exists (AuthTested None :: login :: ok1 ++ ok2).
      split; [repeat constructor; try done; by apply Forall_app |].
      left. split; [done |]. by left.
    + exists (AuthTested None :: login :: ok1 ++ ok2).
      split; [repeat constructor; try done; by apply Forall_app |].
      right. exists ev, e. split_and!; [|done..]. cbn.
      by rewrite <- app_assoc.
  - subst t1. exists (AuthTested None :: login :: ok1).
    split; [by repeat constructor |]. left.
    split; [by rewrite app_nil_r |]. right. by left.
Qed.

Lemma wrap_run (f : IO W Outcome) (w : W) :
  wrap f w =
  (worldOf (f w), traceOf (f w),
   match resultOf (f w) with
   | Returned None => WrapReturned
   | Returned (Some err) => WrapExited (errorLine err) 1
   | Panicked => WrapPanicked
   | OutOfFuel => WrapOutOfFuel
   end).
Proof.
  unfold wrap. rewrite bind_run.
  destruct (f w) as [[w1 t1] [[e|]| |]]; io_simpl; by rewrite app_nil_r.
Qed.

(** How a wrapped command ends.  It returns to its caller only when every
    call it made succeeded.  It ends the process, always with status 1,
    only after printing the error of the call it made last, every call
    before that one having succeeded, or, when no key was given, the
    message of [checkAuth] before any call.  It never dereferences a nil
    client. *)
Theorem wrapped_command_ends (mode : RunMode) (slackKey : string)
    (dryRun : bool) (fuel : nat) (w : W) :
  let r := wrap (supportCmd env mode slackKey dryRun fuel) w in
  match resultOf r with
  | WrapReturned => Forall (λ ev, failure ev = None) (traceOf r)
  | WrapExited printed code =>
      code = 1%Z
      ∧ ∃ e, printed = "Error: " +:+ " " +:+ e +:+ LF
             ∧ ((slackKey = "" ∧ traceOf r = []
                 ∧ e = "no slack auth key provided")
                ∨ ∃ ok ev, traceOf r = ok ++ [ev]
                           ∧ Forall (λ ev', failure ev' = None) ok
                           ∧ failure ev = Some e)
  | WrapPanicked => False
  | WrapOutOfFuel => Forall (λ ev, failure ev = None) (traceOf r)
  end.
Proof.
  cbn zeta. rewrite wrap_run. io_simpl.
  pose proof (runCmd_never_panics env (commandBody env mode dryRun)
                slackKey fuel w) as Hpanic.
  rewrite <- supportCmd_runCmd in Hpanic.
  destruct (supportCmd_ok_tail mode slackKey dryRun fuel w)
    as (ok & Hok & [[Htr Hres] | (ev & e & Htr & Hev & Hres)]).
  - rewrite Htr. destruct Hres as [-> | [-> | (-> & -> & ->)]]; try done.
    split; [done |]. eexists. split; [done |]. by left.
  - rewrite Hres. split; [done |]. exists e. split; [done |]. right.
    by exists ok, ev.
Qed.

(** Without a key a command contacts nothing: whatever the mode, the flag
    [dryRun] and the directory, it prints the message of [checkAuth] and
    ends the process with status 1, the world untouched. *)
Theorem missing_key_exits_before_any_call (mode : RunMode) (dryRun : bool)
    (fuel : nat) (w : W) :
  wrap (supportCmd env mode "" dryRun fuel) w
  = (w, [], WrapExited ("Error: " +:+ " " +:+ "no slack auth key provided"
                        +:+ LF) 1).
Proof.
  rewrite wrap_run, supportCmd_runCmd. unfold runCmd.
  rewrite bind_run, checkAuth_run. by io_simpl.
Qed.

(** When Slack rejects the key, the command stops there: authentication is
    its only call, nothing is listed, selected or printed on the standard
    output, and the process ends with status 1 on the error Slack gave. *)
Theorem rejected_key_stops_the_command (mode : RunMode) (slackKey : string)
    (dryRun : bool) (fuel : nat) (w w' : W) (resp : AuthTestResponse)
    (e : error) :
  slackKey ≠ "" →
  AuthTestContext env (slackNew slackKey) w = (w', (resp, Some e)) →
  wrap (supportCmd env mode slackKey dryRun fuel) w
  = (w', [AuthTested (Some e)], WrapExited (errorLine e) 1).
Proof.
  intros Hkey Hauth. rewrite wrap_run, supportCmd_runCmd. unfold runCmd.
  rewrite bind_run, checkAuth_run, bool_decide_eq_false_2 by done.
  cbn zeta. rewrite Hauth. by io_simpl.
Qed.

(** The listing has no bound of its own on the number of pages: as long as
    the directory answers every request with a page and a cursor that is not
    empty, it goes on fetching and does not return. *)
Theorem listing_goes_on_while_cursors_come (client : Client) :
  (∀ params w, ∃ w' page next,
     GetConversationsContext env client params w = (w', (page, next, None))
     ∧ next ≠ "") →
  ∀ fuel w,
    resultOf (getAllChannels env fuel client w) = None
    ∧ length (traceOf (getAllChannels env fuel client w)) = fuel.
Proof.
  intros Hmore fuel w. unfold getAllChannels.
  generalize (@nil Channel) as acc. generalize "" as cursor. revert w.
  induction fuel as [|fuel IH]; intros w cursor acc; [done |].
  cbn [getAllChannelsFrom]. rewrite bind_run. unfold getConversations.
  destruct (Hmore (mkParams cursor "true") w) as (w1 & page & next & -> & Hne).
  io_simpl. rewrite length_eqb_0_string, bool_decide_eq_false_2 by done.
  destruct (IH w1 next (acc ++ page)) as [-> Hlen]. split; [done |].
  cbn. by rewrite Hlen.
Qed.

End WholeCommands.

(** ** These properties on examples *)

Lemma leave_keeps_default_channels_witness :
  "frame" ∈ orderedNames (selector Join scenarioD_channels)
  ∧ "frame" ∉ orderedNames (selector Leave
                 [mkChannel "C2" "frame" true false false;
                  mkChannel "C1" "_acme" true false false]).
Proof.
  split.
  - apply (proj2 (leave_keeps_default_channels scenarioD_channels)
                 (mkChannel "C2" "frame" false false false)).
    + apply list_elem_of_In. vm_compute. tauto.
    + reflexivity.
    + apply list_elem_of_In. vm_compute. tauto.
  - pose proof (proj1 (leave_keeps_default_channels
                  [mkChannel "C2" "frame" true false false;
                   mkChannel "C1" "_acme" true false false])) as Hall.
    rewrite Forall_forall in Hall. apply (Hall "frame").
    apply list_elem_of_In. vm_compute. tauto.
Defined.

Lemma dry_run_only_prints_witness :
  let sel := selector Join scenarioD_channels in
  let live := commandBody (scriptedEnv scenarioD_script) Join false
                          (slackNew "token") scenarioD_channels noMembership in
  orderedNames sel = ["_acme"; "frame"]
  ∧ plan Join (orderedNames sel) `prefix_of` traceOf live.
Proof.
  cbn zeta. split; [vm_compute; reflexivity |].
  apply (dry_run_only_prints (scriptedEnv scenarioD_script) Join
           (slackNew "token") scenarioD_channels noMembership).
  vm_compute. discriminate.
Defined.

Lemma checkAuth_client_or_error_witness :
  "xoxp-1" ≠ ""
  ∧ traceOf (checkAuth (scriptedEnv quietScript) "xoxp-1" noMembership)
    = [AuthTested None;
       Printed ("Logged in as: operator" +:+ LF +:+ TAB +:+ "Team: team"
                +:+ LF)].
Proof.
  assert ("xoxp-1" ≠ "") as Hkey by discriminate.
  split; [exact Hkey |].
  destruct (proj2 (proj2 (proj2 (checkAuth_client_or_error
              (scriptedEnv quietScript) "xoxp-1" noMembership))) Hkey)
    as (_ & _ & _ & _ & ->).
  reflexivity.
Defined.

Lemma rejected_key_stops_the_command_witness :
  wrap (supportCmd rejectingEnv Leave "xoxp-expired" false 3) noMembership
  = (noMembership, [AuthTested (Some "invalid_auth")],
     WrapExited ("Error: " +:+ " " +:+ "invalid_auth" +:+ LF) 1).
Proof.
  apply (rejected_key_stops_the_command rejectingEnv Leave "xoxp-expired"
           false 3 noMembership noMembership (mkAuthTestResponse "" "")
           "invalid_auth").
  - discriminate.
  - reflexivity.
Defined.

Lemma listing_goes_on_while_cursors_come_witness :
  resultOf (getAllChannels (scriptedEnv endlessScript) 7 (slackNew "token")
              noMembership) = None
  ∧ length (traceOf (getAllChannels (scriptedEnv endlessScript) 7
                       (slackNew "token") noMembership)) = 7.
Proof.
  apply (listing_goes_on_while_cursors_come (scriptedEnv endlessScript)
           (slackNew "token")).
  intros params w. exists w, [mkChannel "C1" "_acme" false false false], "more".
  split; [reflexivity | discriminate].
Defined.
